(** * Benchmark comparison tools: a shallow embedding and its properties

    The development follows the two scripts of the [tools] directory:
    [compare_benchmarks.py] (unit parsing, report loading, the comparison
    table and its command line) and [jj_benchmark_trailer.py] (the trailer
    editor and the run orchestrator).

    Python strings are modelled as lists of characters whose code points
    are below 256 (the type [ascii] read as U+0000 .. U+00FF): on that
    range [str.isspace], [str.lower], [str.splitlines] and the regular
    expression classes have the finite tables written out below.  Python
    floats are IEEE-754 binary64 numbers, modelled by [spec_float] with
    precision 53 and maximal exponent 1024. *)

From Stdlib Require Import Ascii String DecimalString.
From Stdlib Require Import List Bool Arith NArith ZArith Lia Sorted.
From Stdlib Require Import SpecFloat.
Import ListNotations.


(** ** Python strings *)

Definition str := list ascii.

(** String literals. *)
Definition lit (x : string) : str := list_ascii_of_string x.

(** The newline character and the one-character string holding it. *)
Definition LF : ascii := ascii_of_N 10.
Definition nl : str := [LF].

Module Py.

Definition code (c : ascii) : N := N_of_ascii c.

Definition in_range (lo hi : N) (c : ascii) : bool :=
  ((lo <=? code c) && (code c <=? hi))%N.

Definition is_code (n : N) (c : ascii) : bool := (code c =? n)%N.

(** [str.isspace] on one character: TAB..CR, FS..US, SPACE, NEL, NBSP. *)
Definition isspace (c : ascii) : bool :=
  in_range 9 13 c || in_range 28 32 c || is_code 133 c || is_code 160 c.

(** The line boundaries of [str.splitlines]: LF, VT, FF, CR, FS, GS, RS,
    NEL (and CR LF, which counts as one boundary). *)
Definition is_linebreak (c : ascii) : bool :=
  in_range 10 13 c || in_range 28 30 c || is_code 133 c.

Definition is_cr : ascii -> bool := is_code 13.
Definition is_lf : ascii -> bool := is_code 10.

Definition isdigit : ascii -> bool := in_range 48 57.
Definition isupper_ascii : ascii -> bool := in_range 65 90.
Definition islower_ascii : ascii -> bool := in_range 97 122.
Definition isalnum_ascii (c : ascii) : bool :=
  isupper_ascii c || islower_ascii c || isdigit c.

(** [str.lower] on one character: A-Z and the Latin-1 capitals
    U+00C0 .. U+00DE (all but the multiplication sign U+00D7). *)
Definition lower_char (c : ascii) : ascii :=
  if isupper_ascii c || (in_range 192 222 c && negb (is_code 215 c))
  then ascii_of_N (code c + 32) else c.

Definition lower (x : str) : str := map lower_char x.

Fixpoint lstrip (x : str) : str :=
  match x with
  | c :: x' => if isspace c then lstrip x' else x
  | [] => []
  end.

Definition rstrip (x : str) : str := rev (lstrip (rev x)).

Definition strip (x : str) : str := lstrip (rstrip x).

(** [x.strip(chars)] for a set of characters. *)
Fixpoint lstrip_chars (p : ascii -> bool) (x : str) : str :=
  match x with
  | c :: x' => if p c then lstrip_chars p x' else x
  | [] => []
  end.

Definition strip_chars (p : ascii -> bool) (x : str) : str :=
  lstrip_chars p (rev (lstrip_chars p (rev x))).

Fixpoint startswith (x prefix : str) {struct prefix} : bool :=
  match prefix, x with
  | [], _ => true
  | p :: prefix', c :: x' => Ascii.eqb c p && startswith x' prefix'
  | _ :: _, [] => false
  end.

(** [sep.join(parts)] *)
Fixpoint join (sep : str) (parts : list str) : str :=
  match parts with
  | [] => []
  | [p] => p
  | p :: rest => p ++ sep ++ join sep rest
  end.

(** [x.splitlines()]: the lines of [x] without their boundaries; a final
    boundary does not open a further, empty line. *)
Fixpoint splitlines (x : str) : list str :=
  match x with
  | [] => []
  | c :: x' =>
      if is_linebreak c then
        [] :: (if is_cr c
               then match x' with
                    | d :: x'' => if is_lf d then splitlines x'' else splitlines x'
                    | [] => splitlines x'
                    end
               else splitlines x')
      else
        match splitlines x' with
        | [] => [[c]]
        | l :: ls => (c :: l) :: ls
        end
  end.

(** [x.replace(old, new)] for a one-character [old]. *)
Definition replace_char (old : ascii) (new : str) (x : str) : str :=
  flat_map (fun c => if Ascii.eqb c old then new else [c]) x.

(** [x.ljust(width)] *)
Definition ljust (width : nat) (x : str) : str :=
  x ++ repeat " "%char (width - length x).

(** The truth value of a string: non-empty. *)
Definition truthy (x : str) : bool :=
  match x with [] => false | _ :: _ => true end.

End Py.

(** ** Exceptions *)

Inductive exn : Type :=
| AttributeError
| KeyError
| IndexError
| RuntimeError (msg : str)
| OSError.

Inductive result (A : Type) : Type :=
| Return (a : A)
| Raise (e : exn).
Arguments Return {A} a.
Arguments Raise {A} e.

Definition bind {A B} (r : result A) (k : A -> result B) : result B :=
  match r with
  | Return a => k a
  | Raise e => Raise e
  end.

Notation "x <- r ;; k" := (bind r (fun x => k))
  (at level 61, r at next level, right associativity).

(** ** Effects

    A computation that reads and changes a world of type [W] and either
    returns a value or raises. *)

Definition io (W A : Type) : Type := W -> result A * W.

Definition ret {W A} (a : A) : io W A := fun w => (Return a, w).

Definition raise {W A} (e : exn) : io W A := fun w => (Raise e, w).

Definition lift {W A} (r : result A) : io W A := fun w => (r, w).

Definition bind_io {W A B} (m : io W A) (k : A -> io W B) : io W B :=
  fun w =>
    match m w with
    | (Return a, w') => k a w'
    | (Raise e, w') => (Raise e, w')
    end.

Notation "x <~ m ;; k" := (bind_io m (fun x => k))
  (at level 61, m at next level, right associativity).

(** [try: body finally: handler]: the handler runs on every way out of the
    body; an exception of the handler replaces the outcome of the body. *)
Definition try_finally {W A} (body : io W A) (handler : io W unit) : io W A :=
  fun w =>
    let (outcome, w1) := body w in
    match handler w1 with
    | (Return _, w2) => (outcome, w2)
    | (Raise e, w2) => (Raise e, w2)
    end.

(** ** Regular expressions

    The patterns of the two scripts use character classes, literals,
    sequence, alternation, [?] and the greedy [*] and [+] over a class.
    [matches] is the backtracking matcher of Python's [re]: alternatives
    are tried left to right, a quantifier first takes as much as it can
    and gives characters back one at a time; the continuation [k] stands
    for the rest of the pattern. *)

Module Re.

Inductive re : Type :=
| Class (p : ascii -> bool)
| Seq (r1 r2 : re)
| Alt (r1 r2 : re)
| Opt (r : re)
| Star (p : ascii -> bool)
| Plus (p : ascii -> bool).

Definition or_else {A} (a b : option A) : option A :=
  match a with Some _ => a | None => b end.

Fixpoint star {A} (p : ascii -> bool) (x : str) (k : str -> option A) : option A :=
  match x with
  | c :: x' => if p c then or_else (star p x' k) (k x) else k x
  | [] => k x
  end.

Fixpoint matches {A} (r : re) (x : str) (k : str -> option A) : option A :=
  match r with
  | Class p => match x with
               | c :: x' => if p c then k x' else None
               | [] => None
               end
  | Seq r1 r2 => matches r1 x (fun y => matches r2 y k)
  | Alt r1 r2 => or_else (matches r1 x k) (matches r2 x k)
  | Opt r1 => or_else (matches r1 x k) (k x)
  | Star p => star p x k
  | Plus p => match x with
              | c :: x' => if p c then star p x' k else None
              | [] => None
              end
  end.

(** One literal character; under [re.IGNORECASE] both cases match. *)
Definition chr (c : ascii) : re := Class (Ascii.eqb c).
Definition chr_i (c : ascii) : re :=
  Class (fun d => Ascii.eqb (Py.lower_char d) (Py.lower_char c)).

(** A literal word of at least one character, ignoring case. *)
Fixpoint word_i (c : ascii) (w : str) : re :=
  match w with
  | [] => chr_i c
  | d :: w' => Seq (chr_i c) (word_i d w')
  end.

(** The text between two positions of a string, each position given by
    the suffix that starts there. *)
Definition consumed (x rest : str) : str :=
  firstn (length x - length rest) x.

(** [pattern.match(x)] for a pattern without groups: does a prefix of
    [x] match? *)
Definition match_prefix (r : re) (x : str) : bool :=
  match matches r x (fun _ => Some tt) with Some _ => true | None => false end.

(** [re.match(pattern, x).groups()] for a pattern [(g1)mid(g2)]. *)
Definition match_groups2 (g1 mid g2 : re) (x : str) : option (str * str) :=
  matches g1 x (fun y =>
  matches mid y (fun z =>
  matches g2 z (fun w =>
  Some (consumed x y, consumed z w)))).

End Re.

(** ** tools/jj_benchmark_trailer.py: the trailer editor *)

Module Trailer.
Import Py Re.

Definition TRAILER_KEY : str := lit "Benchmark".

(** [[A-Za-z0-9-]] *)
Definition key_char (c : ascii) : bool := isalnum_ascii c || is_code 45 c.

(** [re.compile(r"^[A-Za-z0-9][A-Za-z0-9-]*:")] *)
Definition trailer_pattern : re :=
  Seq (Class isalnum_ascii) (Seq (Star key_char) (chr ":")).

(** The [while] loop of [update_trailer] on its loop variable;
    [lines[trailer_start - 1]] is an indexed access, which raises
    [IndexError] out of range. *)
Fixpoint scan_trailers (lines : list str) (trailer_start : nat) : result nat :=
  match trailer_start with
  | 0 => Return 0
  | S t =>
      match nth_error lines t with
      | None => Raise IndexError
      | Some line =>
          if match_prefix trailer_pattern (strip line)
          then scan_trailers lines t
          else Return trailer_start
      end
  end.

(** [line.lower().startswith(f"{key.lower()}:")] *)
Definition has_key (key line : str) : bool :=
  startswith (lower line) (lower key ++ lit ":").

Definition update_trailer (existing key value : str) : result str :=
  let lines := splitlines (rstrip existing) in
  trailer_start <- scan_trailers lines (length lines) ;;
  let body := firstn trailer_start lines in
  let trailers := skipn trailer_start lines in
  let trailers := filter (fun line => negb (has_key key line)) trailers in
  let trailers := trailers ++ [key ++ lit ": " ++ value] in
  let body_text := rstrip (join nl body) in
  let trailer_text := rstrip (join nl trailers) in
  if truthy body_text && truthy trailer_text then
    Return (body_text ++ nl ++ nl ++ trailer_text ++ nl)
  else if truthy trailer_text then
    Return (trailer_text ++ nl)
  else
    Return (body_text ++ nl).

(** The trailer block of a description, as [update_trailer] isolates it:
    the lines from [trailer_start] on. *)
Definition trailer_block (text : str) : result (list str) :=
  let lines := splitlines (rstrip text) in
  trailer_start <- scan_trailers lines (length lines) ;;
  Return (skipn trailer_start lines).

End Trailer.

(** ** Python floats: IEEE-754 binary64 *)

Module Float.

Definition float := spec_float.

Definition prec : Z := 53.
Definition emax : Z := 1024.

Definition mul : float -> float -> float := SFmul prec emax.
Definition sub : float -> float -> float := SFsub prec emax.
Definition div : float -> float -> float := SFdiv prec emax.
Definition abs : float -> float := SFabs.
Definition ltb : float -> float -> bool := SFltb.
Definition eqb : float -> float -> bool := SFeqb.

Definition isnan (x : float) : bool :=
  match x with S754_nan => true | _ => false end.

(** The float nearest to an integer ([float(n)], and the conversion of
    an [int] operand in mixed arithmetic). *)
Definition of_Z (z : Z) : float := binary_normalize prec emax z 0 false.

(** The float nearest to [n / d], ties to even, with sign [neg]: the
    value of a decimal literal with digits [n] and denominator [d]. *)
Definition of_ratio (neg : bool) (n : N) (d : positive) : float :=
  match n with
  | N0 => S754_zero neg
  | Npos m => SFdiv prec emax (S754_finite neg m 0) (S754_finite false d 0)
  end.

Fixpoint pow10 (n : nat) : positive :=
  match n with
  | O => 1%positive
  | S n' => (10 * pow10 n')%positive
  end.

Definition digit_val (c : ascii) : N := Py.code c - 48.

Fixpoint digits_val (acc : N) (x : str) : N :=
  match x with
  | [] => acc
  | c :: x' => digits_val (acc * 10 + digit_val c) x'
  end.

Fixpoint take_digits (x : str) : str * str :=
  match x with
  | c :: x' => if Py.isdigit c
               then let (ds, rest) := take_digits x' in (c :: ds, rest)
               else ([], x)
  | [] => ([], [])
  end.

(** [float(x)] for the spellings the pattern [[-+]?\d*\.?\d+] can
    capture: an optional sign, digits, an optional point and digits.
    ([float] reads other spellings too: exponents, [inf], [nan],
    underscores; the capture group yields none of them.) *)
Definition of_str (x : str) : float :=
  let (neg, body) :=
    match x with
    | c :: x' => if Py.is_code 45 c then (true, x')
                 else if Py.is_code 43 c then (false, x')
                 else (false, x)
    | [] => (false, [])
    end in
  let (int_part, rest) := take_digits body in
  let frac_part := match rest with _ :: r => fst (take_digits r) | [] => [] end in
  of_ratio neg (digits_val 0 (int_part ++ frac_part))
           (pow10 (length frac_part)).

(** [n / d] rounded to the nearest integer, ties to even. *)
Definition div_half_even (n : N) (d : N) : N :=
  let q := (n / d)%N in
  let r := (n mod d)%N in
  match (2 * r ?= d)%N with
  | Lt => q
  | Gt => (q + 1)%N
  | Eq => if N.even q then q else (q + 1)%N
  end.

(** [|x| * 10^p] rounded to the nearest integer, ties to even, for a
    finite [x]. *)
Definition scaled (p : nat) (x : float) : N :=
  match x with
  | S754_finite _ m e =>
      match e with
      | Z0 => Npos (m * pow10 p)
      | Zpos k => Npos (m * 2 ^ k * pow10 p)
      | Zneg k => div_half_even (Npos (m * pow10 p)) (Npos (2 ^ k))
      end
  | _ => 0
  end%N.

Definition dec (n : N) : str :=
  list_ascii_of_string (NilZero.string_of_uint (N.to_uint n)).

Definition dec_int (z : Z) : str :=
  list_ascii_of_string (NilZero.string_of_int (Z.to_int z)).

Definition sign_bit (x : float) : bool :=
  match x with
  | S754_zero s | S754_infinity s | S754_finite s _ _ => s
  | S754_nan => false
  end.

(** [f"{x:.pf}"], and [f"{x:+.pf}"] when [plus] is set: the exact value
    rounded to [p] decimals, ties to even; the sign of a negative
    number (also of a negative zero) is kept. *)
Definition format_f (plus : bool) (p : nat) (x : float) : str :=
  let sign := if sign_bit x then lit "-" else if plus then lit "+" else [] in
  match x with
  | S754_nan => sign ++ lit "nan"
  | S754_infinity _ => sign ++ lit "inf"
  | _ =>
      let n := scaled p x in
      let int_part := dec (n / Npos (pow10 p)) in
      let frac := dec (n mod Npos (pow10 p)) in
      let frac_part :=
        match p with
        | 0 => []
        | S _ => lit "." ++ repeat "0"%char (p - length frac) ++ frac
        end in
      sign ++ int_part ++ frac_part
  end.

End Float.

(** ** Python dictionaries with string keys

    Insertion-ordered association lists without repeated keys: an
    assignment to a key already present replaces its value in place. *)

Module Dict.

Definition str_eqb (a b : str) : bool :=
  if list_eq_dec ascii_dec a b then true else false.

Definition dict (V : Type) : Type := list (str * V).

Fixpoint get {V} (d : dict V) (k : str) : option V :=
  match d with
  | [] => None
  | (k', v) :: d' => if str_eqb k k' then Some v else get d' k
  end.

Fixpoint set {V} (d : dict V) (k : str) (v : V) : dict V :=
  match d with
  | [] => [(k, v)]
  | (k', v') :: d' => if str_eqb k k' then (k, v) :: d' else (k', v') :: set d' k v
  end.

Definition keys {V} (d : dict V) : list str := map fst d.

(** [d[k]] *)
Definition lookup {V} (d : dict V) (k : str) : result V :=
  match get d k with Some v => Return v | None => Raise KeyError end.

End Dict.

(** ** tools/compare_benchmarks.py *)

Module CompareBenchmarks.
Import Py Re Float Dict.

Definition Duration := option float.
Definition Bytes := option float.

Record BenchmarkResult : Type := {
  mean_seconds : Duration;
  stddev_seconds : Duration;
  allocated_bytes : Bytes
}.

Definition DURATION_UNITS : dict float :=
  [ (lit "ns", of_ratio false 1 1000000000);
    (lit "us", of_ratio false 1 1000000);
    (lit "ms", of_ratio false 1 1000);
    (lit "s", of_Z 1) ].

(** [[-+]?\d*\.?\d+] *)
Definition number : re :=
  Seq (Opt (Class (fun c => is_code 45 c || is_code 43 c)))
      (Seq (Star isdigit) (Seq (Opt (chr ".")) (Plus isdigit))).

(** [\s*] *)
Definition spaces : re := Star isspace.

(** [ns|us|ms|s] under [re.IGNORECASE] *)
Definition duration_unit : re :=
  Alt (word_i "n" (lit "s"))
      (Alt (word_i "u" (lit "s")) (Alt (word_i "m" (lit "s")) (word_i "s" []))).

(** [B|KB|MB] under [re.IGNORECASE] *)
Definition bytes_unit : re :=
  Alt (word_i "B" []) (Alt (word_i "K" (lit "B")) (word_i "M" (lit "B"))).

(** The micro sign U+00B5.  (The Greek mu U+03BC, which the source
    replaces as well, lies outside the characters of this model.) *)
Definition MICRO : ascii := ascii_of_N 181.

Definition parse_duration (value : str) : result Duration :=
  let value := strip value in
  if negb (truthy value) then Return None else
  let cleaned := replace_char MICRO (lit "u") (replace_char "," [] value) in
  match match_groups2 number spaces duration_unit cleaned with
  | None => Return None
  | Some (amount, unit) =>
      factor <- lookup DURATION_UNITS (lower unit) ;;
      Return (Some (mul (of_str amount) factor))
  end.

Definition BYTES_FACTORS : dict Z :=
  [ (lit "b", 1); (lit "kb", 1024); (lit "mb", 1024 * 1024) ]%Z.

Definition parse_bytes (value : str) : result Bytes :=
  let value := strip value in
  if negb (truthy value) then Return None else
  let cleaned := replace_char "," [] value in
  match match_groups2 number spaces bytes_unit cleaned with
  | None => Return None
  | Some (amount, unit) =>
      factor <- lookup BYTES_FACTORS (lower unit) ;;
      Return (Some (mul (of_str amount) (of_Z factor)))
  end.

(** *** Reading a report

    [csv.reader] is taken as given: a report is the list of rows it
    yields, each a list of cells.  [csv.DictReader] takes the first row
    as field names, skips empty rows, and turns every other row into a
    dictionary: the cells by field name, and [None] for the field names
    that a short row has no cell for.  (The cells that a long row has
    beyond the field names are stored under the key [None], which no
    string key reads.) *)

Definition csv := list (list str).

Definition row_dict := dict (option str).

Definition dict_of_row (fieldnames row : list str) : row_dict :=
  let d := fold_left (fun d kv => set d (fst kv) (Some (snd kv)))
                     (combine fieldnames row) [] in
  fold_left (fun d k => set d k None) (skipn (length row) fieldnames) d.

Definition nonempty_row (row : list str) : bool :=
  match row with [] => false | _ :: _ => true end.

Definition DictReader (report : csv) : list row_dict :=
  match report with
  | [] => []
  | fieldnames :: rows => map (dict_of_row fieldnames) (filter nonempty_row rows)
  end.

(** [row.get(key, "")]: the default stands in only for an absent key. *)
Definition row_get (row : row_dict) (key : str) : option str :=
  match get row key with
  | Some v => v
  | None => Some []
  end.

(** A call [f(v)] whose first step is [v.strip()]: on [None] the
    attribute access raises. *)
Definition on_str {A} (f : str -> result A) (v : option str) : result A :=
  match v with
  | Some x => f x
  | None => Raise AttributeError
  end.

Definition is_quote (c : ascii) : bool := is_code 39 c || is_code 34 c.

Definition read_row (results : dict BenchmarkResult) (row : row_dict)
  : result (dict BenchmarkResult) :=
  method <- on_str (fun x => Return (strip_chars is_quote (strip x)))
                   (row_get row (lit "Method")) ;;
  mean <- on_str parse_duration (row_get row (lit "Mean")) ;;
  stddev <- on_str parse_duration (row_get row (lit "StdDev")) ;;
  alloc <- on_str parse_bytes (row_get row (lit "Allocated")) ;;
  Return (set results method
    {| mean_seconds := mean; stddev_seconds := stddev; allocated_bytes := alloc |}).

Fixpoint read_rows (results : dict BenchmarkResult) (rows : list row_dict)
  : result (dict BenchmarkResult) :=
  match rows with
  | [] => Return results
  | row :: rows' => results' <- read_row results row ;; read_rows results' rows'
  end.

Definition read_results (report : csv) : result (dict BenchmarkResult) :=
  read_rows [] (DictReader report).

(** *** Formatting *)

Definition format_duration (seconds : Duration) : str :=
  match seconds with
  | None => lit "n/a"
  | Some seconds =>
      if isnan seconds then lit "n/a" else
      let abs_val := abs seconds in
      let '(value, unit) :=
        if ltb abs_val (of_ratio false 1 1000000) then
          (mul seconds (of_Z 1000000000), lit "ns")
        else if ltb abs_val (of_ratio false 1 1000) then
          (mul seconds (of_Z 1000000), lit "us")
        else if ltb abs_val (of_Z 1) then
          (mul seconds (of_Z 1000), lit "ms")
        else
          (seconds, lit "s") in
      format_f false 3 value ++ lit " " ++ unit
  end.

Definition format_bytes (value : Bytes) : str :=
  match value with
  | None => lit "n/a"
  | Some value =>
      if isnan value then lit "n/a" else
      let abs_val := abs value in
      if ltb abs_val (of_Z 1024) then
        format_f false 0 value ++ lit " B"
      else if ltb abs_val (of_Z (1024 * 1024)) then
        format_f false 1 (div value (of_Z 1024)) ++ lit " KB"
      else
        format_f false 2 (div (div value (of_Z 1024)) (of_Z 1024)) ++ lit " MB"
  end.

Definition pct_delta (old new : Duration) : str :=
  match old, new with
  | Some old, Some new =>
      if eqb old (of_Z 0) then lit "n/a" else
      let delta := mul (div (sub new old) old) (of_Z 100) in
      format_f true 1 delta ++ lit "%"
  | _, _ => lit "n/a"
  end.

(** *** The table *)

Definition headers : list str :=
  [ lit "Benchmark"; lit "Base Mean"; lit "New Mean"; lit "Mean Delta";
    lit "Base Alloc"; lit "New Alloc"; lit "Alloc Delta" ].

(** The order of Python strings: lexicographic on code points. *)
Fixpoint str_compare (a b : str) : comparison :=
  match a, b with
  | [], [] => Eq
  | [], _ :: _ => Lt
  | _ :: _, [] => Gt
  | c :: a', d :: b' =>
      match (code c ?= code d)%N with
      | Eq => str_compare a' b'
      | o => o
      end
  end.

Fixpoint insert_name (k : str) (l : list str) : list str :=
  match l with
  | [] => [k]
  | h :: t =>
      match str_compare k h with
      | Lt => k :: l
      | Eq => l
      | Gt => h :: insert_name k t
      end
  end.

(** [sorted(set(base) | set(new))] *)
Definition sorted_names (base new : dict BenchmarkResult) : list str :=
  fold_right insert_name [] (keys base ++ keys new).

Definition field {A} (f : BenchmarkResult -> option A)
           (r : option BenchmarkResult) : option A :=
  match r with Some r => f r | None => None end.

(** The body of the loop over the names. *)
Definition table_row (base new : dict BenchmarkResult) (name : str) : list str :=
  let base_result := get base name in
  let new_result := get new name in
  let base_mean := field mean_seconds base_result in
  let new_mean := field mean_seconds new_result in
  let base_alloc := field allocated_bytes base_result in
  let new_alloc := field allocated_bytes new_result in
  [ if truthy name then name else lit "(unknown)";
    format_duration base_mean;
    format_duration new_mean;
    pct_delta base_mean new_mean;
    format_bytes base_alloc;
    format_bytes new_alloc;
    pct_delta base_alloc new_alloc ].

Definition table_rows (base new : dict BenchmarkResult) : list (list str) :=
  headers :: map (table_row base new) (sorted_names base new).

Definition enumerate {A} (l : list A) : list (nat * A) :=
  combine (seq 0 (length l)) l.

(** [[max(len(row[i]) for row in rows) for i in range(len(headers))]].
    Every row has one cell per header, so [row[i]] is in range. *)
Definition column_widths (rows : list (list str)) : list nat :=
  map (fun i => list_max (map (fun row => length (nth i row [])) rows))
      (seq 0 (length headers)).

Definition render_row (widths : list nat) (row : list str) : str :=
  let padded := map (fun ic => ljust (nth (fst ic) widths 0) (snd ic)) (enumerate row) in
  join (lit "  ") padded.

(** The list [lines] at the end of [build_table]. *)
Definition table_lines (rows : list (list str)) : list str :=
  let widths := column_widths rows in
  flat_map (fun ir =>
              let line := render_row widths (snd ir) in
              line :: (if Nat.eqb (fst ir) 0
                       then [repeat "-"%char (length line)]
                       else []))
           (enumerate rows).

Definition build_table (base new : dict BenchmarkResult) : str :=
  join nl (table_lines (table_rows base new)).

(** *** The command line

    [main] prints to standard output and returns the exit code; the
    files it sees are given by the environment. *)

Inductive file_kind : Type := RegularFile | Directory | OtherKind.

Record env : Type := {
  (** the text of [pathlib.Path(arg).expanduser()] *)
  expanduser : str -> str;
  (** what a path names, if anything *)
  path_kind : str -> option file_kind;
  (** [path.open] followed by [csv.reader] on the file *)
  open_report : str -> result csv
}.

(** [path.is_file()] *)
Definition is_file (e : env) (path : str) : bool :=
  match path_kind e path with
  | Some RegularFile => true
  | _ => false
  end.

(** [__doc__.strip()] *)
Definition USAGE : str :=
  lit "Compare two BenchmarkDotNet CSV reports and print mean + allocation deltas." ++ nl ++
  lit "Usage: python3 tools/compare_benchmarks.py base.csv new.csv".

Definition print (text : str) : io (list str) unit :=
  fun out => (Return tt, out ++ [text]).

Definition main (e : env) (argv : list str) : io (list str) Z :=
  if negb (Nat.eqb (length argv) 3) then
    _ <~ print USAGE ;; ret 1%Z
  else
    let base_path := expanduser e (nth 1 argv []) in
    let new_path := expanduser e (nth 2 argv []) in
    if negb (is_file e base_path) then
      _ <~ print (lit "Base file not found: " ++ base_path) ;; ret 1%Z
    else if negb (is_file e new_path) then
      _ <~ print (lit "New file not found: " ++ new_path) ;; ret 1%Z
    else
      base_results <~ lift (report <- open_report e base_path ;; read_results report) ;;
      new_results <~ lift (report <- open_report e new_path ;; read_results report) ;;
      _ <~ print (build_table base_results new_results) ;;
      ret 0%Z.

(** [raise SystemExit(main())]: the exit status of the script and what
    it wrote to standard output; an exception that nothing catches ends
    the interpreter with status 1. *)
Definition script (e : env) (argv : list str) : Z * list str :=
  match main e argv [] with
  | (Return status, out) => (status, out)
  | (Raise _, out) => (1%Z, out)
  end.

End CompareBenchmarks.

(** ** tools/jj_benchmark_trailer.py: the run orchestrator *)

Module Orchestrator.
Import Py Float Dict Trailer.

(** What a run does to the outside: the lines it prints, the commands
    it runs (with their return code, or with the exception of a command
    that could not be started) and the files it copies and removes. *)
Inductive event : Type :=
| Printed (text : str)
| Ran (cmd : list str) (status : result Z)
| Copied (src dst : str)
| Removed (dir : str).

(** The world: the events so far, and whether the working copy is
    switched away from the original change. *)
Record world : Type := {
  trace : list event;
  switched : bool
}.

(** What a command answers. *)
Record output : Type := {
  out_code : Z;
  out_stdout : str;
  out_stderr : str
}.

(** [subprocess.CompletedProcess]: the streams are [None] unless
    captured. *)
Record CompletedProcess : Type := {
  returncode : Z;
  stdout : option str;
  stderr : option str
}.

(** The external collaborators: every answer may depend on all that
    happened before. *)
Record env : Type := {
  ROOT : str;
  tmp : str;
  (** [subprocess.run]: the answer of the command, or the exception of
      a program that cannot be started *)
  subprocess_run : list event -> list str -> result output;
  csv_exists : list event -> bool;
  shutil_copy : list event -> str -> str -> result unit;
  open_report : list event -> str -> result CompareBenchmarks.csv
}.

Section WithEnv.
Variable e : env.

Definition BENCH_SCRIPT : str := ROOT e ++ lit "/benchmark.sh".
Definition DEFAULT_CSV : str :=
  ROOT e ++ lit "/BenchmarkDotNet.Artifacts/results/Sparky.Benchmarks.CircuitBenchmarks-report.csv".

Definition JJ_NEW : list str := [lit "jj"; lit "new"; lit "@-"].
Definition JJ_UNDO : list str := [lit "jj"; lit "undo"].

Definition cmd_eqb (a b : list str) : bool :=
  if list_eq_dec (list_eq_dec ascii_dec) a b then true else false.

(** The version-control oracle: a successful [jj new @-] switches the
    working copy to the parent, a successful [jj undo] restores it; a
    command that fails, and any other command, leaves it as it is. *)
Definition vcs_effect (cmd : list str) (code : Z) (sw : bool) : bool :=
  if negb (Z.eqb code 0) then sw
  else if cmd_eqb cmd JJ_NEW then true
  else if cmd_eqb cmd JJ_UNDO then false
  else sw.

Definition print (text : str) : io world unit :=
  fun w => (Return tt, {| trace := trace w ++ [Printed text]; switched := switched w |}).

Definition subprocess (cmd : list str) (capture : bool) : io world CompletedProcess :=
  fun w =>
    match subprocess_run e (trace w) cmd with
    | Return o =>
        (Return {| returncode := out_code o;
                   stdout := if capture then Some (out_stdout o) else None;
                   stderr := if capture then Some (out_stderr o) else None |},
         {| trace := trace w ++ [Ran cmd (Return (out_code o))];
            switched := vcs_effect cmd (out_code o) (switched w) |})
    | Raise ex =>
        (Raise ex,
         {| trace := trace w ++ [Ran cmd (Raise ex)]; switched := switched w |})
    end.

(** [v.strip()] on a stream: [None] has no such attribute. *)
Definition strip_stream (v : option str) : result str :=
  match v with
  | Some x => Return (strip x)
  | None => Raise AttributeError
  end.

Definition run (cmd : list str) (capture : bool) : io world CompletedProcess :=
  result <~ subprocess cmd capture ;;
  if negb (Z.eqb (returncode result) 0) then
    stderr <~ lift (strip_stream (stderr result)) ;;
    stdout <~ lift (strip_stream (stdout result)) ;;
    let details :=
      if capture
      then nl ++ lit "stdout:" ++ nl ++ stdout ++ nl ++ nl ++ lit "stderr:" ++ nl ++ stderr
      else [] in
    raise (RuntimeError (lit "Command failed (" ++ dec_int (returncode result) ++ lit "): "
                         ++ join (lit " ") cmd ++ details))
  else ret result.

Definition copy (src dst : str) : io world unit :=
  fun w => (shutil_copy e (trace w) src dst,
            {| trace := trace w ++ [Copied src dst]; switched := switched w |}).

Definition run_benchmark (label tmpdir : str) : io world str :=
  _ <~ print (lit "Running benchmarks for " ++ label ++ lit "...") ;;
  _ <~ run [BENCH_SCRIPT; lit "run"] false ;;
  found <~ (fun w => (Return (csv_exists e (trace w)), w)) ;;
  if negb found then
    raise (RuntimeError (lit "Benchmark output not found at " ++ DEFAULT_CSV))
  else
    let dest := tmpdir ++ lit "/" ++ label ++ lit ".csv" in
    _ <~ copy DEFAULT_CSV dest ;;
    _ <~ print (lit "Saved " ++ label ++ lit " results to " ++ dest) ;;
    ret dest.

Definition restore : io world unit :=
  _ <~ print (lit "Restoring original working copy (jj undo)...") ;;
  _ <~ run JJ_UNDO false ;;
  ret tt.

Definition checkout_parent_and_benchmark (tmpdir : str) : io world str :=
  _ <~ run JJ_NEW false ;;
  try_finally (run_benchmark (lit "parent") tmpdir) restore.

Definition format_pct (delta : option float) : str :=
  match delta with
  | None => lit "n/a"
  | Some delta => format_f true 1 delta ++ lit "%"
  end.

Definition compute_mean_delta (old new : option CompareBenchmarks.BenchmarkResult)
  : option float :=
  match old, new with
  | Some old, Some new =>
      match CompareBenchmarks.mean_seconds old, CompareBenchmarks.mean_seconds new with
      | Some old_mean, Some new_mean =>
          if eqb old_mean (of_Z 0) then None
          else Some (mul (div (sub new_mean old_mean) old_mean) (of_Z 100))
      | _, _ => None
      end
  | _, _ => None
  end.

Definition summarize (base new : dict CompareBenchmarks.BenchmarkResult) : str :=
  let part name :=
    let base_res := get base name in
    let new_res := get new name in
    let delta := compute_mean_delta base_res new_res in
    let base_dur := CompareBenchmarks.format_duration
                      (CompareBenchmarks.field CompareBenchmarks.mean_seconds base_res) in
    let new_dur := CompareBenchmarks.format_duration
                      (CompareBenchmarks.field CompareBenchmarks.mean_seconds new_res) in
    name ++ lit ": " ++ format_pct delta ++ lit " (" ++ base_dur ++ lit " -> " ++ new_dur ++ lit ")" in
  join (nl ++ lit "  ") (map part (CompareBenchmarks.sorted_names base new)).

(** [x.rstrip("\n")] *)
Definition rstrip_newlines (x : str) : str :=
  rev (lstrip_chars is_lf (rev x)).

Definition append_trailer (table : str)
           (base_results new_results : dict CompareBenchmarks.BenchmarkResult)
  : io world unit :=
  let summary_line := summarize base_results new_results in
  log <~ run [lit "jj"; lit "log"; lit "-r"; lit "@"; lit "-G"; lit "-T"; lit "description"] true ;;
  current_desc <~ lift (match stdout log with
                        | Some x => Return (rstrip_newlines x)
                        | None => Raise AttributeError
                        end) ;;
  new_desc <~ lift (update_trailer current_desc TRAILER_KEY summary_line) ;;
  _ <~ print (nl ++ lit "Benchmark comparison:" ++ nl) ;;
  _ <~ print table ;;
  _ <~ print (nl ++ lit "Updating current change description with trailer...") ;;
  _ <~ run [lit "jj"; lit "describe"; lit "-m"; new_desc] false ;;
  print (lit "Added trailer: " ++ TRAILER_KEY ++ lit ": " ++ summary_line).

Definition read_results (path : str) : io world (dict CompareBenchmarks.BenchmarkResult) :=
  fun w => (report <- open_report e (trace w) path ;; CompareBenchmarks.read_results report, w).

Definition remove_tmp : io world unit :=
  fun w => (Return tt, {| trace := trace w ++ [Removed (tmp e)]; switched := switched w |}).

(** The body of the [with tempfile.TemporaryDirectory(...)] block. *)
Definition main_body (tmpdir : str) : io world Z :=
  current_csv <~ run_benchmark (lit "current") tmpdir ;;
  parent_csv <~ checkout_parent_and_benchmark tmpdir ;;
  _ <~ copy current_csv DEFAULT_CSV ;;
  base_results <~ read_results parent_csv ;;
  new_results <~ read_results current_csv ;;
  let table := CompareBenchmarks.build_table base_results new_results in
  _ <~ append_trailer table base_results new_results ;;
  ret 0%Z.

Definition main : io world Z :=
  try_finally (main_body (tmp e)) remove_tmp.

End WithEnv.

End Orchestrator.

(** * The vocabulary of the properties *)

Section Vocabulary.
Import Py Re Float Dict Trailer CompareBenchmarks.

(** Lines, each with its newline. *)
Definition terminated (ls : list str) : str := flat_map (fun l => l ++ [LF]) ls.

(** A text without line boundary. *)
Definition single_line (x : str) : bool := forallb (fun c => negb (is_linebreak c)) x.

(** The text after a boundary that starts with [c]. *)
Definition after_break (c : ascii) (x : str) : str :=
  if is_cr c
  then match x with
       | d :: x' => if is_lf d then x' else x
       | [] => x
       end
  else x.

(** The keys the trailer pattern recognises: a letter or digit, then
    letters, digits and hyphens. *)
Definition trailer_key (key : str) : bool :=
  match key with
  | c :: key' => isalnum_ascii c && forallb key_char key'
  | [] => false
  end.

(** The test of the scan: the stripped line matches the trailer
    pattern. *)
Definition is_trailer (line : str) : bool :=
  match_prefix trailer_pattern (strip line).

(** The line that [update_trailer] writes for a key and a value: the
    trailing white space of the text goes. *)
Definition new_line (key value : str) : str := rstrip (key ++ lit ": " ++ value).

(** The blank line between body and trailers, when there is a body. *)
Definition heading (body_text : str) : str :=
  if truthy body_text then body_text ++ nl ++ nl else [].



(** A description with a body and one trailer. *)
Definition example_description : str :=
  lit "Fixes bug" ++ nl ++ nl ++ lit "Signed-off-by: A" ++ nl.


(** The summary of a later run of the same two benchmarks. *)
Definition summary_B : str :=
  lit "Parse: +1.5% (1.000 ms -> 1.015 ms)" ++ nl ++
  lit "  Solve: -2.5% (5.000 ms -> 4.875 ms)".

(** The texts that the number pattern takes whole: an optional sign,
    digits, an optional point, and at least one more digit. *)
Definition number_text (amount : str) : Prop :=
  exists sign int_digits point frac_digits,
    amount = sign ++ int_digits ++ point ++ frac_digits /\
    In sign [[]; lit "-"; lit "+"] /\
    forallb isdigit int_digits = true /\
    In point [[]; lit "."] /\
    forallb isdigit frac_digits = true /\
    frac_digits <> [].

(** What may follow a number: not a digit, not a point. *)
Definition ends_number (y : str) : Prop :=
  match y with
  | c :: _ => isdigit c = false /\ Ascii.eqb "." c = false
  | [] => True
  end.

(** The first letters of the units, in either case. *)
Definition unit_letter (c : ascii) : bool :=
  existsb (Ascii.eqb (lower_char c)) (lit "numsbk").

(** The text [parse_duration] matches against: stripped, without
    thousands separators, the micro sign written [u]. *)
Definition clean_duration (value : str) : str :=
  replace_char MICRO (lit "u") (replace_char "," [] (strip value)).

(** The text [parse_bytes] matches against. *)
Definition clean_bytes (value : str) : str :=
  replace_char "," [] (strip value).

(** A finite number above zero. *)
Definition positive_finite (x : float) : bool :=
  match x with
  | S754_finite false _ _ => true
  | _ => false
  end.

(** [x == 0] *)
Definition is_zero (x : float) : bool := eqb x (of_Z 0).

(** The two delta cells of a table row. *)
Definition mean_delta (row : list str) : str := nth 3 row [].

Definition alloc_delta (row : list str) : str := nth 6 row [].

(** The rows of the table below the header. *)
Definition data_rows (base new : Dict.dict CompareBenchmarks.BenchmarkResult)
  : list (list str) :=
  map (CompareBenchmarks.table_row base new) (CompareBenchmarks.sorted_names base new).

(** The delta cell of a value compared with itself: ["n/a"] for no value
    and for zero, ["+0.0%"] for a finite number above zero. *)
Definition same_delta (v : option Float.float) (cell : str) : Prop :=
  match v with
  | None => cell = lit "n/a"
  | Some x => (is_zero x = true -> cell = lit "n/a") /\
            (positive_finite x = true -> cell = lit "+0.0%")
  end.

(** A report with one benchmark that allocates nothing. *)
Definition report_no_alloc : CompareBenchmarks.csv :=
  [ [lit "Method"; lit "Mean"; lit "StdDev"; lit "Allocated"];
  [lit "Foo"; lit "120.000 ns"; lit "1.500 ns"; lit "0 B"] ].

Definition results_no_alloc : Dict.dict CompareBenchmarks.BenchmarkResult :=
  match CompareBenchmarks.read_results report_no_alloc with
  | Return results => results
  | Raise _ => []
  end.






(** A report whose only data row stops after the name. *)
Definition report_short_row : CompareBenchmarks.csv :=
  [ [lit "Method"; lit "Mean"; lit "StdDev"; lit "Allocated"];
  [lit "Foo"] ].

(** What [main] does with a path: open the report and read it. *)
Definition load (e : env) (path : str) : result (dict BenchmarkResult) :=
  report <- open_report e path ;; read_results report.


(** A text whose only line boundaries are newlines. *)
Definition lf_only (x : str) : bool :=
  forallb (fun c => negb (is_linebreak c) || is_lf c) x.

(** The lines of a body text and the blank line after it, when there is
    a body. *)
Definition body_lines (body_text : str) : list str :=
  if truthy body_text then splitlines body_text ++ [[]] else [].

(** The trailer lines that an update with [key] keeps. *)
Definition other_trailers (key : str) (trailers : list str) : list str :=
  filter (fun line => negb (has_key key line)) trailers.



(** A report with two rows for the same benchmark. *)
Definition report_repeated : CompareBenchmarks.csv :=
  [ [lit "Method"; lit "Mean"; lit "StdDev"; lit "Allocated"];
  [lit "Foo"; lit "120.000 ns"; lit "1.500 ns"; lit "0 B"];
  [lit "Bar"; lit "2.000 ms"; lit "0.100 ms"; lit "1.5 KB"];
  [lit "'Foo'"; lit "90.000 ns"; lit "1.000 ns"; lit "64 B"] ].





(** A file system that holds a report with a short row under
    [base.csv] and a complete report under [new.csv]. *)
Definition short_base : CompareBenchmarks.env :=
  {| CompareBenchmarks.expanduser := fun path => path;
   CompareBenchmarks.path_kind := fun path =>
     if Dict.str_eqb path (lit "base.csv") || Dict.str_eqb path (lit "new.csv")
     then Some CompareBenchmarks.RegularFile else None;
   CompareBenchmarks.open_report := fun path =>
     if Dict.str_eqb path (lit "base.csv") then Return report_short_row
     else if Dict.str_eqb path (lit "new.csv") then Return report_no_alloc
     else Raise OSError |}.

(** A number that is neither infinite nor NaN. *)
Definition finite (x : float) : bool :=
  match x with
  | S754_zero _ | S754_finite _ _ _ => true
  | _ => false
  end.

(** A character that the cleaning steps of the parsers leave alone:
    no white space, no comma, no micro sign. *)
Definition plain (c : ascii) : bool :=
  negb (isspace c) && negb (Ascii.eqb c ",") && negb (Ascii.eqb c MICRO).

(** The units that the formatters write. *)
Definition duration_units : list str := [lit "ns"; lit "us"; lit "ms"; lit "s"].
Definition bytes_units : list str := [lit "B"; lit "KB"; lit "MB"].

(** A finite number whose mantissa has at most [d] binary digits and
    whose exponent is at most [e0]. *)
Definition small (x : float) (d e0 : Z) : Prop :=
  match x with
  | S754_zero _ => True
  | S754_finite _ m e => (Zdigits2 (Zpos m) <= d /\ e <= e0)%Z
  | _ => False
  end.



End Vocabulary.

Section OrchestratorVocabulary.
Import Py Dict Orchestrator.

(** A later world: the same working copy, more events. *)
Definition extends (w w' : world) : Prop :=
  switched w' = switched w /\ exists events, trace w' = trace w ++ events.

(** A computation that leaves the working copy alone. *)
Definition quiet {A} (m : io world A) : Prop :=
  forall w, extends w (snd (m w)).

(** A command other than [jj new @-] and [jj undo]. *)
Definition other_command (cmd : list str) : Prop :=
  cmd <> JJ_NEW /\ cmd <> JJ_UNDO.

(** The message of the restoration step. *)
Definition RESTORING : str := lit "Restoring original working copy (jj undo)...".


(** A command that ran and returned zero. *)
Definition succeeded (status : result Z) : bool :=
  match status with
  | Return code => Z.eqb code 0
  | Raise _ => false
  end.



(** Collaborators with which every benchmark run fails and every other
    command succeeds. *)
Definition failing_benchmark : Orchestrator.env :=
  {| Orchestrator.ROOT := lit "/repo";
   Orchestrator.tmp := lit "/tmp/jj-bench-0";
   Orchestrator.subprocess_run := fun _ cmd =>
     Return
       {| Orchestrator.out_code :=
            if Orchestrator.cmd_eqb cmd [lit "/repo/benchmark.sh"; lit "run"] then 1 else 0;
          Orchestrator.out_stdout := [];
          Orchestrator.out_stderr := [] |};
   Orchestrator.csv_exists := fun _ => true;
   Orchestrator.shutil_copy := fun _ _ _ => Return tt;
   Orchestrator.open_report := fun _ _ => Return report_no_alloc |}.

(** The world before a run: nothing happened, the working copy is the
    original one. *)
Definition initial_world : Orchestrator.world :=
  {| Orchestrator.trace := []; Orchestrator.switched := false |}.

(** The entry of a name in the summary, from the cells of its row in
    the table: the name, the mean delta, and the two means. *)
Definition summary_entry (row : list str) (name : str) : str :=
  name ++ lit ": " ++ nth 3 row [] ++ lit " (" ++ nth 1 row [] ++ lit " -> "
       ++ nth 2 row [] ++ lit ")".

(** [m], run in [w], ends with [outcome] after adding [events], with
    the working copy switched or not as [sw] says. *)
Definition does {A} (m : io world A) (w : world) (outcome : result A)
           (events : list event) (sw : bool) : Prop :=
  m w = (outcome, {| trace := trace w ++ events; switched := sw |}).

(** The events that a computation added to those of [w]. *)
Definition new_events (w w' : world) : list event :=
  skipn (length (trace w)) (trace w').

(** The commands among the events, each with the way it ended. *)
Definition commands (events : list event) : list (list str * result Z) :=
  flat_map (fun ev => match ev with
                      | Ran cmd status => [(cmd, status)]
                      | _ => []
                      end) events.

(** A command that returned zero. *)
Definition OK : result Z := Return 0%Z.

(** The commands of a run. *)
Definition BENCH (e : env) : list str := [BENCH_SCRIPT e; lit "run"].

Definition JJ_LOG : list str :=
  [lit "jj"; lit "log"; lit "-r"; lit "@"; lit "-G"; lit "-T"; lit "description"].

Definition jj_describe (desc : str) : list str :=
  [lit "jj"; lit "describe"; lit "-m"; desc].

(** The commands up to the restoration of the working copy, each of
    them successful. *)
Definition restored (e : env) : list (list str * result Z) :=
  [ (BENCH e, OK); (JJ_NEW, OK); (BENCH e, OK); (JJ_UNDO, OK) ].

(** The events of a successful benchmark run. *)
Definition bench_events (e : env) (label tmpdir : str) : list event :=
  let dest := tmpdir ++ lit "/" ++ label ++ lit ".csv" in
  [ Printed (lit "Running benchmarks for " ++ label ++ lit "...");
    Ran (BENCH e) OK;
    Copied (DEFAULT_CSV e) dest;
    Printed (lit "Saved " ++ label ++ lit " results to " ++ dest) ].

(** The events of [append_trailer] up to the command that writes the
    description. *)
Definition trailer_events (table : str) : list event :=
  [ Ran JJ_LOG OK;
    Printed (nl ++ lit "Benchmark comparison:" ++ nl);
    Printed table;
    Printed (nl ++ lit "Updating current change description with trailer...") ].

(** The events of a run in which nothing fails, up to the command that
    writes the description. *)
Definition events_before_describe (e : env) (tmpdir table : str) : list event :=
  bench_events e (lit "current") tmpdir
  ++ [Ran JJ_NEW OK]
  ++ bench_events e (lit "parent") tmpdir
  ++ [Printed RESTORING; Ran JJ_UNDO OK]
  ++ [Copied (tmpdir ++ lit "/current.csv") (DEFAULT_CSV e)]
  ++ trailer_events table.

(** Collaborators with which every command succeeds: the description of
    the current change is a subject line, and both reports are the
    report of one benchmark. *)
Definition working_tools : Orchestrator.env :=
  {| Orchestrator.ROOT := lit "/repo";
   Orchestrator.tmp := lit "/tmp/jj-bench-0";
   Orchestrator.subprocess_run := fun _ cmd =>
     Return
       {| Orchestrator.out_code := 0;
          Orchestrator.out_stdout :=
            if Orchestrator.cmd_eqb cmd JJ_LOG then lit "Fix the parser" ++ nl else [];
          Orchestrator.out_stderr := [] |};
   Orchestrator.csv_exists := fun _ => true;
   Orchestrator.shutil_copy := fun _ _ _ => Return tt;
   Orchestrator.open_report := fun _ _ => Return report_no_alloc |}.

(** The description that a run with [working_tools] writes. *)
Definition described : str :=
  lit "Fix the parser" ++ nl ++ nl
  ++ lit "Benchmark: Foo: +0.0% (120.000 ns -> 120.000 ns)" ++ nl.

(** The message of [run] for a command that returned [code], with its
    captured output. *)
Definition failure_message (cmd : list str) (code : Z) (out err : str) : str :=
  lit "Command failed (" ++ Float.dec_int code ++ lit "): " ++ join (lit " ") cmd
  ++ nl ++ lit "stdout:" ++ nl ++ strip out ++ nl ++ nl ++ lit "stderr:" ++ nl ++ strip err.

End OrchestratorVocabulary.

(** * Properties *)

(** ** Characters and strings *)

Section StringFacts.
Import Py.

Ltac by_cases_on c :=
  destruct c as [[] [] [] [] [] [] [] []]; vm_compute; try reflexivity; try discriminate.

Lemma linebreak_isspace c : is_linebreak c = true -> isspace c = true.
Proof. by_cases_on c. Qed.

Lemma alnum_not_space c : isalnum_ascii c = true -> isspace c = false.
Proof. by_cases_on c. Qed.

Lemma alnum_not_linebreak c : isalnum_ascii c = true -> is_linebreak c = false.
Proof. by_cases_on c. Qed.

Lemma lstrip_head x c y : lstrip x = c :: y -> isspace c = false.
Proof.
  induction x as [|d x IH]; simpl; [discriminate|].
  destruct (isspace d) eqn:E; auto.
  intros H; injection H as -> _; exact E.
Qed.

Lemma lstrip_keep u c w :
  isspace c = false -> lstrip (u ++ c :: w) = lstrip u ++ c :: w.
Proof.
  intros Hc; induction u as [|d u IH]; simpl.
  - now rewrite Hc.
  - destruct (isspace d); auto.
Qed.

Lemma lstrip_nonspace c x : isspace c = false -> lstrip (c :: x) = c :: x.
Proof. intros H; simpl; now rewrite H. Qed.

Lemma rstrip_keep a c b :
  isspace c = false -> rstrip (a ++ c :: b) = a ++ c :: rstrip b.
Proof.
  intros Hc; unfold rstrip.
  rewrite rev_app_distr; simpl rev.
  rewrite <- app_assoc; simpl.
  rewrite (lstrip_keep _ _ _ Hc), rev_app_distr; simpl.
  now rewrite rev_involutive, <- app_assoc.
Qed.

Lemma rstrip_nil : rstrip [] = [].
Proof. reflexivity. Qed.

(** A stripped string is empty or ends with a character that is not
    white space. *)
Lemma rstrip_last x :
  rstrip x = [] \/ exists y c, rstrip x = y ++ [c] /\ isspace c = false.
Proof.
  unfold rstrip; destruct (lstrip (rev x)) as [|c y] eqn:E; [now left|right].
  exists (rev y), c; split; [reflexivity|]; eapply lstrip_head; eauto.
Qed.

Lemma rstrip_fixed y c : isspace c = false -> rstrip (y ++ [c]) = y ++ [c].
Proof. intros H; now rewrite (rstrip_keep y c [] H). Qed.

Lemma rstrip_idem x : rstrip (rstrip x) = rstrip x.
Proof.
  destruct (rstrip_last x) as [->|(y & c & -> & H)]; [reflexivity|].
  now apply rstrip_fixed.
Qed.

Lemma rstrip_snoc_space x c : isspace c = true -> rstrip (x ++ [c]) = rstrip x.
Proof.
  intros H; unfold rstrip; rewrite rev_app_distr; simpl; now rewrite H.
Qed.

Lemma strip_rstrip x : strip (rstrip x) = strip x.
Proof. unfold strip; now rewrite rstrip_idem. Qed.

Lemma startswith_app a b c : startswith (a ++ c) (a ++ b) = startswith c b.
Proof.
  induction a as [|d a IH]; simpl; [reflexivity|].
  now rewrite Ascii.eqb_refl.
Qed.

Lemma lower_app a b : lower (a ++ b) = lower a ++ lower b.
Proof. apply map_app. Qed.

(** *** Joining lines *)


Lemma join_cons sep a ls : ls <> [] -> join sep (a :: ls) = a ++ sep ++ join sep ls.
Proof. destruct ls; [congruence|reflexivity]. Qed.

Lemma join_snoc ls l : join nl (ls ++ [l]) = terminated ls ++ l.
Proof.
  induction ls as [|a ls IH]; [reflexivity|].
  change ((a :: ls) ++ [l]) with (a :: (ls ++ [l])).
  rewrite join_cons by (destruct ls; discriminate).
  rewrite IH; unfold terminated; cbn [flat_map]; now rewrite <- !app_assoc.
Qed.

(** *** Splitting lines *)



Lemma splitlines_cons c x :
  splitlines (c :: x) =
  if is_linebreak c then [] :: splitlines (after_break c x)
  else match splitlines x with
       | [] => [[c]]
       | l :: ls => (c :: l) :: ls
       end.
Proof.
  unfold after_break; simpl.
  destruct (is_linebreak c), (is_cr c), x as [|d x]; try reflexivity.
  destruct (is_lf d); reflexivity.
Qed.

Lemma after_break_length c x : length (after_break c x) <= length x.
Proof.
  unfold after_break; destruct (is_cr c), x as [|d x]; simpl; try lia.
  destruct (is_lf d); simpl; lia.
Qed.

Lemma lf_linebreak c : is_lf c = true -> is_linebreak c = true.
Proof. by_cases_on c. Qed.

Lemma after_break_snoc d b c z :
  is_linebreak c = false ->
  exists b', length b' <= length b /\
             after_break d (b ++ [c]) = b' ++ [c] /\
             after_break d ((b ++ [c]) ++ z) = (b' ++ [c]) ++ z.
Proof.
  intros Hc.
  assert (Hlf : is_lf c = false).
  { destruct (is_lf c) eqn:E; [apply lf_linebreak in E; congruence|reflexivity]. }
  unfold after_break; destruct (is_cr d).
  - destruct b as [|d' b]; simpl.
    + rewrite Hlf. exists []; simpl; auto.
    + destruct (is_lf d').
      * exists b; simpl; auto.
      * exists (d' :: b); simpl; auto.
  - exists b; auto.
Qed.

Lemma splitlines_single_line x l : In l (splitlines x) -> single_line l = true.
Proof.
  remember (length x) as n eqn:Hn.
  revert x Hn l; induction n as [n IH] using lt_wf_ind; intros x Hn l.
  destruct x as [|c x]; [simpl; tauto|].
  rewrite splitlines_cons.
  destruct (is_linebreak c) eqn:Ec.
  - intros [<-|H]; [reflexivity|].
    eapply IH; [| reflexivity | exact H].
    pose proof (after_break_length c x); simpl in Hn; lia.
  - specialize (IH (length x) ltac:(simpl in Hn; lia) x eq_refl).
    destruct (splitlines x) as [|l0 ls].
    + intros [<-|[]]; simpl; now rewrite Ec.
    + intros [<-|H]; [simpl; rewrite Ec; apply IH; now left | apply IH; now right].
Qed.

Lemma splitlines_nonempty x : x <> [] -> splitlines x <> [].
Proof.
  destruct x as [|c x]; [congruence|intros _; simpl].
  destruct (is_linebreak c); [discriminate|].
  destruct (splitlines x); discriminate.
Qed.

(** A line and its boundary in front of more text. *)
Lemma splitlines_line l y :
  single_line l = true -> splitlines (l ++ LF :: y) = l :: splitlines y.
Proof.
  induction l as [|c l IH]; simpl; [reflexivity|].
  intros H; apply andb_prop in H as [Hc Hl].
  apply negb_true_iff in Hc; rewrite Hc.
  now rewrite (IH Hl).
Qed.

Lemma splitlines_last_line l :
  single_line l = true -> l <> [] -> splitlines l = [l].
Proof.
  induction l as [|c l IH]; simpl; [congruence|].
  intros H _; apply andb_prop in H as [Hc Hl].
  apply negb_true_iff in Hc; rewrite Hc.
  destruct l as [|d l]; [reflexivity|].
  rewrite IH; [reflexivity|exact Hl|discriminate].
Qed.

Lemma splitlines_lines ls l :
  Forall (fun x => single_line x = true) ls -> single_line l = true -> l <> [] ->
  splitlines (terminated ls ++ l) = ls ++ [l].
Proof.
  intros Hls Hl Hne; induction Hls as [|a ls Ha _ IH]; simpl.
  - now apply splitlines_last_line.
  - rewrite <- !app_assoc; simpl.
    rewrite (splitlines_line _ _ Ha). now rewrite IH.
Qed.

(** Text that does not end in white space, in front of a boundary. *)
Lemma splitlines_text b c y :
  isspace c = false ->
  splitlines ((b ++ [c]) ++ LF :: y) = splitlines (b ++ [c]) ++ splitlines y.
Proof.
  intros Hc.
  assert (Hbr : is_linebreak c = false).
  { destruct (is_linebreak c) eqn:E; [|reflexivity].
    apply linebreak_isspace in E; congruence. }
  remember (length b) as n eqn:Hn.
  revert b Hn; induction n as [n IH] using lt_wf_ind; intros b Hn.
  destruct b as [|d b].
  - simpl. now rewrite Hbr.
  - change (((d :: b) ++ [c]) ++ LF :: y) with (d :: ((b ++ [c]) ++ LF :: y)).
    change ((d :: b) ++ [c]) with (d :: (b ++ [c])).
    rewrite !splitlines_cons.
    destruct (is_linebreak d) eqn:Ed.
    + destruct (after_break_snoc d b c (LF :: y) Hbr) as (b' & Hlen & -> & ->).
      simpl app at 3. f_equal.
      apply (IH (length b')); [simpl in Hn; lia|reflexivity].
    + rewrite (IH (length b) ltac:(simpl in Hn; lia) b eq_refl).
      pose proof (splitlines_nonempty (b ++ [c])) as Hne.
      destruct (splitlines (b ++ [c])) as [|l0 ls0].
      * exfalso; apply Hne; [destruct b; discriminate|reflexivity].
      * reflexivity.
Qed.

End StringFacts.

(** ** The trailer editor *)

Section TrailerFacts.
Import Py Re Trailer.

(** A greedy star over a run that the rest of the pattern accepts at
    its end takes the whole run. *)
Lemma star_run {A} p run y (k : str -> option A) a :
  forallb p run = true -> k y = Some a ->
  match y with c :: _ => p c = false | [] => True end ->
  star p (run ++ y) k = Some a.
Proof.
  intros Hrun Hk Hy; induction run as [|c run IH]; simpl.
  - destruct y as [|c y]; [exact Hk|]. simpl; now rewrite Hy.
  - simpl in Hrun; apply andb_prop in Hrun as [-> Hrun].
    now rewrite (IH Hrun).
Qed.



Lemma trailer_key_line key rest :
  trailer_key key = true -> is_trailer (key ++ lit ":" ++ rest) = true.
Proof.
  destruct key as [|c key]; [discriminate|]; intros H.
  cbn [trailer_key] in H; apply andb_prop in H as [Hc Hkey].
  unfold is_trailer, strip.
  change (lit ":" ++ rest) with (":"%char :: rest).
  rewrite (rstrip_keep (c :: key) ":"%char rest eq_refl).
  cbn [app]. rewrite lstrip_nonspace by now apply alnum_not_space.
  unfold match_prefix, trailer_pattern; cbn [matches]. rewrite Hc.
  erewrite star_run; [reflexivity|exact Hkey|reflexivity|reflexivity].
Qed.

Lemma is_trailer_rstrip line : is_trailer (rstrip line) = is_trailer line.
Proof. unfold is_trailer; now rewrite strip_rstrip. Qed.

(** The scan never leaves the list, so the indexed access never raises;
    it stops below the trailer-shaped lines it went over. *)
Lemma scan_trailers_range lines n :
  n <= length lines ->
  exists t, scan_trailers lines n = Return t /\ t <= n /\
            forall i line, t <= i < n -> nth_error lines i = Some line ->
                           is_trailer line = true.
Proof.
  induction n as [|n IH]; intros Hn.
  - exists 0; repeat split; [lia|intros; lia].
  - cbn [scan_trailers].
    destruct (nth_error lines n) as [line|] eqn:E.
    + fold (is_trailer line). destruct (is_trailer line) eqn:Et.
      * destruct (IH ltac:(lia)) as (t & -> & Ht & Hall).
        exists t; repeat split; [lia|].
        intros i line' Hi Hline.
        destruct (Nat.eq_dec i n) as [->|Hne]; [congruence|].
        apply (Hall i); [lia|exact Hline].
      * exists (S n); repeat split; [lia|intros; lia].
    + apply nth_error_None in E; lia.
Qed.

Lemma scan_trailers_spec lines :
  exists t, scan_trailers lines (length lines) = Return t /\ t <= length lines /\
            forallb is_trailer (skipn t lines) = true.
Proof.
  destruct (scan_trailers_range lines (length lines) (le_n _)) as (t & Ht & Hle & Hall).
  exists t; repeat split; [assumption..|].
  apply forallb_forall; intros line Hin.
  apply In_nth_error in Hin as [i Hi].
  rewrite nth_error_skipn in Hi.
  apply (Hall (t + i)); [|exact Hi].
  split; [lia|]. apply nth_error_Some; congruence.
Qed.

(** Trailer-shaped lines below a line that is not: the scan stops
    between them. *)
Lemma scan_trailers_stop above tail :
  forallb is_trailer tail = true ->
  match rev above with l :: _ => is_trailer l = false | [] => True end ->
  scan_trailers (above ++ tail) (length (above ++ tail)) = Return (length above).
Proof.
  intros Htail Habove.
  assert (Hgen : forall n, n <= length tail ->
            scan_trailers (above ++ tail) (length above + n)
            = scan_trailers (above ++ tail) (length above)).
  { induction n as [|n IH]; intros Hn; [now rewrite Nat.add_0_r|].
    rewrite Nat.add_succ_r; simpl.
    rewrite nth_error_app2 by lia.
    replace (length above + n - length above) with n by lia.
    destruct (nth_error tail n) as [line|] eqn:E.
    - fold (is_trailer line).
      assert (is_trailer line = true) as ->.
      { rewrite forallb_forall in Htail; apply Htail; eapply nth_error_In; eauto. }
      apply IH; lia.
    - apply nth_error_None in E; lia. }
  rewrite length_app, Hgen by lia.
  destruct above as [|a above _] using rev_ind; [reflexivity|].
  rewrite rev_app_distr in Habove; simpl in Habove.
  rewrite length_app, Nat.add_comm; simpl.
  rewrite <- app_assoc, nth_error_app2, Nat.sub_diag by lia; simpl.
  fold (is_trailer a). now rewrite Habove.
Qed.


Lemma new_line_eq key value :
  new_line key value = key ++ ":"%char :: rstrip (" "%char :: value).
Proof. exact (rstrip_keep key ":"%char (" "%char :: value) eq_refl). Qed.

Lemma trailer_text_eq kept key value :
  rstrip (join nl (kept ++ [key ++ lit ": " ++ value]))
  = terminated kept ++ new_line key value.
Proof.
  rewrite join_snoc, new_line_eq.
  change (key ++ lit ": " ++ value) with (key ++ ":"%char :: " "%char :: value).
  rewrite (app_assoc (terminated kept) key).
  rewrite (rstrip_keep _ ":"%char _ eq_refl).
  now rewrite <- app_assoc.
Qed.


Lemma update_trailer_shape existing key value :
  let lines := splitlines (rstrip existing) in
  exists t,
    scan_trailers lines (length lines) = Return t /\
    forallb is_trailer (skipn t lines) = true /\
    update_trailer existing key value =
    Return (heading (rstrip (join nl (firstn t lines)))
            ++ terminated (filter (fun line => negb (has_key key line)) (skipn t lines))
            ++ new_line key value ++ nl).
Proof.
  intros lines.
  destruct (scan_trailers_spec lines) as (t & Ht & _ & Hall).
  exists t; repeat split; [exact Ht|exact Hall|].
  unfold update_trailer; fold lines; rewrite Ht; cbn [bind].
  rewrite trailer_text_eq.
  set (kept := filter _ _). set (body_text := rstrip (join nl (firstn t lines))).
  assert (truthy (terminated kept ++ new_line key value) = true) as ->.
  { rewrite new_line_eq. destruct (terminated kept), key; reflexivity. }
  unfold heading; destruct (truthy body_text); cbn [andb].
  - now rewrite <- !app_assoc.
  - now rewrite <- app_assoc.
Qed.

Lemma new_line_last key value :
  exists y c, new_line key value = y ++ [c] /\ isspace c = false.
Proof.
  unfold new_line; destruct (rstrip_last (key ++ lit ": " ++ value)) as [E|H]; [|exact H].
  fold (new_line key value) in E; rewrite new_line_eq in E.
  destruct key; discriminate.
Qed.

Lemma update_trailer_returns existing key value :
  exists text, update_trailer existing key value = Return text.
Proof.
  destruct (update_trailer_shape existing key value) as (t & _ & _ & ->).
  eexists; reflexivity.
Qed.

End TrailerFacts.

(** C7.  The trailer editor is total: whatever the description, the key
    and the value, [update_trailer] returns a text; in particular the
    indexed access of its loop is always in range. *)
Theorem update_trailer_total (existing key value : str) :
  exists text, Trailer.update_trailer existing key value = Return text.
Proof. exact (update_trailer_returns existing key value). Qed.

(** C10.  The text [update_trailer] returns ends with a character that is
    not white space followed by one newline: it is not empty, it ends
    with exactly one newline, and no blank line precedes that newline.
    This holds for every description, the empty and the blank ones
    included. *)
Theorem update_trailer_ends_with_one_newline (existing key value : str) :
  exists text c,
    Trailer.update_trailer existing key value = Return (text ++ [c; LF]) /\
    Py.isspace c = false.
Proof.
  destruct (update_trailer_shape existing key value) as (t & _ & _ & ->).
  destruct (new_line_last key value) as (y & c & -> & Hc).
  set (head := heading _). set (kept := terminated _).
  exists (head ++ kept ++ y), c; split; [|exact Hc].
  f_equal. rewrite <- !app_assoc. reflexivity.
Qed.

(** The example of the specification: one trailer is kept, the new one
    comes last. *)
Lemma update_trailer_example :
  Trailer.update_trailer example_description (lit "Benchmark") (lit "+5.0% (1ms -> 1.05ms)")
  = Return (lit "Fixes bug" ++ nl ++ nl ++ lit "Signed-off-by: A" ++ nl ++
            lit "Benchmark: +5.0% (1ms -> 1.05ms)" ++ nl).
Proof. vm_compute; reflexivity. Qed.

Section TrailerReplacement.
Import Py Re Trailer.

Lemma lstrip_split y :
  exists w, y = w ++ lstrip y /\ forallb isspace w = true.
Proof.
  induction y as [|c y (w & Hw & Hs)]; [now exists []|].
  cbn [lstrip]; destruct (isspace c) eqn:E.
  - exists (c :: w); split; [now rewrite <- app_comm_cons, <- Hw|].
    cbn [forallb]; now rewrite E.
  - now exists [].
Qed.

Lemma rstrip_split x :
  exists w, x = rstrip x ++ w /\ forallb isspace w = true.
Proof.
  destruct (lstrip_split (rev x)) as (w & Hw & Hs).
  exists (rev w); split.
  - unfold rstrip; rewrite <- rev_app_distr, <- Hw; now rewrite rev_involutive.
  - rewrite forallb_forall in *; intros c Hc; apply Hs; now apply in_rev.
Qed.

Lemma single_line_app a b :
  single_line (a ++ b) = single_line a && single_line b.
Proof. apply forallb_app. Qed.

Lemma single_line_rstrip x : single_line x = true -> single_line (rstrip x) = true.
Proof.
  destruct (rstrip_split x) as (w & Hw & _); intros H.
  rewrite Hw, single_line_app in H. now apply andb_prop in H.
Qed.

Lemma key_char_not_linebreak c : key_char c = true -> is_linebreak c = false.
Proof. destruct c as [[] [] [] [] [] [] [] []]; vm_compute; try reflexivity; discriminate. Qed.

Lemma trailer_key_single_line key : trailer_key key = true -> single_line key = true.
Proof.
  destruct key as [|c key]; [discriminate|]; cbn [trailer_key]; intros H.
  apply andb_prop in H as [Hc Hkey].
  cbn [single_line forallb]. rewrite (alnum_not_linebreak c Hc); cbn [negb andb].
  apply forallb_forall; intros d Hd. rewrite forallb_forall in Hkey.
  now rewrite (key_char_not_linebreak d (Hkey d Hd)).
Qed.

Lemma new_line_single_line key value :
  trailer_key key = true -> single_line value = true ->
  single_line (new_line key value) = true.
Proof.
  intros Hk Hv; apply single_line_rstrip.
  rewrite !single_line_app, (trailer_key_single_line key Hk), Hv; reflexivity.
Qed.

Lemma new_line_has_key key value : has_key key (new_line key value) = true.
Proof.
  unfold has_key; rewrite new_line_eq.
  change (key ++ ":"%char :: rstrip (" "%char :: value))
    with (key ++ lit ":" ++ rstrip (" "%char :: value)).
  rewrite !lower_app, startswith_app.
  reflexivity.
Qed.

Lemma new_line_is_trailer key value :
  trailer_key key = true -> is_trailer (new_line key value) = true.
Proof.
  intros Hk; unfold new_line; rewrite is_trailer_rstrip.
  change (lit ": " ++ value) with (lit ":" ++ " "%char :: value).
  now apply trailer_key_line.
Qed.

Lemma forallb_filter {A} (f g : A -> bool) l :
  forallb g l = true -> forallb g (filter f l) = true.
Proof.
  rewrite !forallb_forall; intros H x Hx; apply filter_In in Hx as [Hx _]; auto.
Qed.

Lemma forallb_filter_self {A} (f : A -> bool) l : forallb f (filter f l) = true.
Proof.
  apply forallb_forall; intros x Hx; now apply filter_In in Hx.
Qed.

(** The trailer block of a text made of an optional body, a blank line,
    trailer lines and a final trailer line. *)
Lemma trailer_block_rebuilt body_text kept last :
  rstrip body_text = body_text ->
  forallb (fun l => single_line l) kept = true ->
  forallb is_trailer kept = true ->
  single_line last = true -> is_trailer last = true ->
  (exists y c, last = y ++ [c] /\ isspace c = false) ->
  trailer_block (heading body_text ++ terminated kept ++ last ++ nl)
  = Return (kept ++ [last]).
Proof.
  intros Hbody Hsl Htr Hl1 Hl2 (y & c & Hlast & Hc).
  assert (Hne : last <> []) by (rewrite Hlast; destruct y; discriminate).
  assert (Hsplit : splitlines (terminated kept ++ last) = kept ++ [last]).
  { apply splitlines_lines; [|assumption..].
    apply Forall_forall; rewrite forallb_forall in Hsl; exact Hsl. }
  assert (Htail : forallb is_trailer (kept ++ [last]) = true).
  { rewrite forallb_app, Htr; cbn [forallb]; now rewrite Hl2. }
  unfold trailer_block.
  replace (rstrip (heading body_text ++ terminated kept ++ last ++ nl))
    with (heading body_text ++ terminated kept ++ last).
  2:{ rewrite !app_assoc. unfold nl. rewrite rstrip_snoc_space by reflexivity.
      rewrite Hlast, !app_assoc. now rewrite rstrip_fixed. }
  unfold heading; destruct (truthy body_text) eqn:Etruthy.
  - destruct (rstrip_last body_text) as [E|(b & d & E & Hd)];
      rewrite Hbody in E; [rewrite E in Etruthy; discriminate|].
    rewrite E, <- (app_assoc (b ++ [d])).
    change ((nl ++ nl) ++ terminated kept ++ last)
      with (LF :: LF :: (terminated kept ++ last)).
    rewrite (splitlines_text b d _ Hd).
    change (splitlines (LF :: terminated kept ++ last))
      with ([[]] ++ splitlines (terminated kept ++ last)).
    rewrite Hsplit, app_assoc.
    rewrite scan_trailers_stop; [|exact Htail|now rewrite rev_app_distr].
    cbn [bind]. now rewrite skipn_app, Nat.sub_diag, skipn_all.
  - cbn [app]; rewrite Hsplit.
    pose proof (scan_trailers_stop [] (kept ++ [last]) Htail I) as Hscan.
    cbn [app] in Hscan; rewrite Hscan.
    reflexivity.
Qed.


End TrailerReplacement.









(** ** The unit parser *)

Section ParserFacts.
Import Py Re Float Dict CompareBenchmarks.

(** A greedy star that went one character too far gives it back. *)
Lemma star_give_back {A} p run d y (k : str -> option A) a :
  forallb p run = true -> p d = true ->
  match y with c :: _ => p c = false | [] => True end ->
  k y = None -> k (d :: y) = Some a ->
  star p (run ++ d :: y) k = Some a.
Proof.
  intros Hrun Hd Hy Hnone Hsome.
  assert (Hstop : star p y k = None).
  { destruct y as [|c y]; [exact Hnone|]. simpl; now rewrite Hy. }
  induction run as [|c run IH]; simpl.
  - now rewrite Hd, Hstop.
  - simpl in Hrun; apply andb_prop in Hrun as [-> Hrun].
    now rewrite (IH Hrun).
Qed.

Lemma consumed_app a b : consumed (a ++ b) b = a.
Proof.
  unfold consumed; rewrite length_app.
  replace (length a + length b - length b) with (length a) by lia.
  now rewrite firstn_app, firstn_all, Nat.sub_diag, app_nil_r.
Qed.



Lemma matches_Seq {A} r1 r2 x (k : str -> option A) :
  matches (Seq r1 r2) x k = matches r1 x (fun y => matches r2 y k).
Proof. reflexivity. Qed.

Lemma matches_Opt {A} r x (k : str -> option A) :
  matches (Opt r) x k = or_else (matches r x k) (k x).
Proof. reflexivity. Qed.

Lemma matches_Alt {A} r1 r2 x (k : str -> option A) :
  matches (Alt r1 r2) x k = or_else (matches r1 x k) (matches r2 x k).
Proof. reflexivity. Qed.

Lemma matches_Class {A} p c x (k : str -> option A) :
  matches (Class p) (c :: x) k = if p c then k x else None.
Proof. reflexivity. Qed.

Lemma matches_Star {A} p x (k : str -> option A) :
  matches (Star p) x k = star p x k.
Proof. reflexivity. Qed.

Lemma matches_Plus {A} p c x (k : str -> option A) :
  matches (Plus p) (c :: x) k = if p c then star p x k else None.
Proof. reflexivity. Qed.

Lemma star_stop {A} p y (k : str -> option A) :
  match y with c :: _ => p c = false | [] => True end -> star p y k = k y.
Proof. destruct y as [|c y]; [reflexivity|]. intros H; cbn [star]; now rewrite H. Qed.

Lemma digits_then {A} ds y (k : str -> option A) a :
  forallb isdigit ds = true -> ds <> [] -> ends_number y -> k y = Some a ->
  matches (Plus isdigit) (ds ++ y) k = Some a.
Proof.
  intros Hds Hne Hy Hk. destruct ds as [|d ds]; [congruence|].
  cbn [forallb] in Hds; apply andb_prop in Hds as [Hd Hds].
  cbn [app]. rewrite matches_Plus, Hd.
  apply star_run; [exact Hds|exact Hk|].
  destruct y; [exact I|apply Hy].
Qed.

Lemma digit_not_sign c :
  isdigit c = true -> is_code 45 c || is_code 43 c = false.
Proof. destruct c as [[] [] [] [] [] [] [] []]; vm_compute; try reflexivity; discriminate. Qed.

Lemma digit_not_point c : isdigit c = true -> Ascii.eqb "." c = false.
Proof. destruct c as [[] [] [] [] [] [] [] []]; vm_compute; try reflexivity; discriminate. Qed.

Lemma ends_number_digit y :
  ends_number y -> match y with c :: _ => isdigit c = false | [] => True end.
Proof. destruct y; [auto|intros [H _]; exact H]. Qed.

(** After the sign: digits, an optional point, digits. *)
Lemma unsigned_match {A} int_digits point frac_digits y (k : str -> option A) a :
  forallb isdigit int_digits = true ->
  In point [[]; lit "."] ->
  forallb isdigit frac_digits = true -> frac_digits <> [] ->
  ends_number y -> k y = Some a ->
  matches (Seq (Star isdigit) (Seq (Opt (chr ".")) (Plus isdigit)))
          (int_digits ++ point ++ frac_digits ++ y) k = Some a.
Proof.
  intros Hi Hp Hf Hne Hy Hk. rewrite matches_Seq, matches_Star.
  destruct Hp as [<-|[<-|[]]].
  - (* no point: the star takes all the digits and gives the last back *)
    destruct (exists_last Hne) as (ds & d & ->).
    rewrite forallb_app in Hf; apply andb_prop in Hf as [Hds Hd].
    cbn [forallb] in Hd; apply andb_prop in Hd as [Hd _].
    cbn [app]. rewrite <- app_assoc, app_assoc. cbn [app].
    apply star_give_back.
    + now rewrite forallb_app, Hi, Hds.
    + exact Hd.
    + now apply ends_number_digit.
    + rewrite matches_Seq, matches_Opt.
      destruct y as [|c y]; [reflexivity|].
      destruct Hy as [Hc1 Hc2]. unfold chr.
      now rewrite matches_Class, Hc2, matches_Plus, Hc1.
    + rewrite matches_Seq, matches_Opt. unfold chr.
      rewrite matches_Class, (digit_not_point d Hd), matches_Plus, Hd.
      cbn [or_else]. rewrite star_stop by now apply ends_number_digit.
      exact Hk.
  - (* a point: every part is taken whole *)
    apply star_run; [exact Hi| |reflexivity].
    rewrite matches_Seq, matches_Opt. unfold chr.
    change (lit "." ++ frac_digits ++ y) with ("."%char :: frac_digits ++ y).
    rewrite matches_Class. change (Ascii.eqb "." ".") with true. cbv iota.
    now rewrite (digits_then frac_digits y k a Hf Hne Hy Hk).
Qed.

Lemma number_match {A} amount y (k : str -> option A) a :
  number_text amount -> ends_number y -> k y = Some a ->
  matches number (amount ++ y) k = Some a.
Proof.
  intros (sign & ds1 & point & ds2 & -> & Hs & H1 & Hp & H2 & Hne) Hy Hk.
  rewrite <- !app_assoc.
  pose proof (unsigned_match ds1 point ds2 y k a H1 Hp H2 Hne Hy Hk) as Hrest.
  unfold number; rewrite matches_Seq, matches_Opt.
  destruct Hs as [<-|[<-|[<-|[]]]].
  - (* no sign *)
    cbn [app]. rewrite Hrest.
    destruct (ds1 ++ point ++ ds2 ++ y) as [|c x] eqn:E; [reflexivity|].
    rewrite matches_Class.
    assert (Hc : is_code 45 c || is_code 43 c = false).
    { destruct ds1 as [|d ds1].
      - destruct Hp as [<-|[<-|[]]].
        + destruct ds2 as [|d ds2]; [congruence|].
          injection E as <- _. cbn [forallb] in H2; apply andb_prop in H2 as [H2 _].
          now apply digit_not_sign.
        + injection E as <- _. reflexivity.
      - injection E as <- _. cbn [forallb] in H1; apply andb_prop in H1 as [H1 _].
        now apply digit_not_sign. }
    now rewrite Hc.
  - change (lit "-" ++ ds1 ++ point ++ ds2 ++ y) with ("-"%char :: ds1 ++ point ++ ds2 ++ y).
    rewrite matches_Class.
    change (is_code 45 "-" || is_code 43 "-") with true. cbv iota.
    now rewrite Hrest.
  - change (lit "+" ++ ds1 ++ point ++ ds2 ++ y) with ("+"%char :: ds1 ++ point ++ ds2 ++ y).
    rewrite matches_Class.
    change (is_code 45 "+" || is_code 43 "+") with true. cbv iota.
    now rewrite Hrest.
Qed.

(** *** Units *)

Lemma str_eqb_eq a b : str_eqb a b = true <-> a = b.
Proof. unfold str_eqb; destruct (list_eq_dec ascii_dec a b); split; congruence. Qed.

Lemma chr_i_match {A} d c x (k : str -> option A) :
  lower_char c = lower_char d -> matches (chr_i d) (c :: x) k = k x.
Proof.
  intros H; unfold chr_i; rewrite matches_Class, H.
  now rewrite Ascii.eqb_refl.
Qed.

Lemma chr_i_mismatch {A} d c x (k : str -> option A) :
  lower_char c <> lower_char d -> matches (chr_i d) (c :: x) k = None.
Proof.
  intros H; unfold chr_i; rewrite matches_Class.
  apply Ascii.eqb_neq in H; now rewrite H.
Qed.

Lemma word_i_match {A} w c unit rest (k : str -> option A) :
  lower unit = lower (c :: w) -> matches (word_i c w) (unit ++ rest) k = k rest.
Proof.
  revert c unit; induction w as [|d w IH]; intros c unit H.
  - destruct unit as [|u [|u' unit]]; try discriminate H.
    injection H as H. cbn [word_i app]. now apply chr_i_match.
  - destruct unit as [|u unit]; [discriminate H|].
    injection H as Hu H. cbn [word_i app].
    rewrite matches_Seq, (chr_i_match c u _ _ Hu).
    now apply IH.
Qed.

Lemma word_i_mismatch {A} w c u unit (k : str -> option A) :
  lower_char u <> lower_char c -> matches (word_i c w) (u :: unit) k = None.
Proof.
  intros H; destruct w as [|d w]; cbn [word_i].
  - now apply chr_i_mismatch.
  - rewrite matches_Seq. now apply chr_i_mismatch.
Qed.


Lemma unit_letter_facts c :
  unit_letter c = true ->
  isspace c = false /\ isdigit c = false /\ Ascii.eqb "." c = false.
Proof.
  destruct c as [[] [] [] [] [] [] [] []]; vm_compute; intros H;
    try discriminate H; repeat split.
Qed.

Lemma space_facts c :
  isspace c = true -> isdigit c = false /\ Ascii.eqb "." c = false.
Proof.
  destruct c as [[] [] [] [] [] [] [] []]; vm_compute; intros H;
    try discriminate H; repeat split.
Qed.

(** Number, white space, unit: the two groups are the number and the
    unit, whatever follows the unit. *)
Lemma groups_match unit_re amount ws u unit rest :
  number_text amount ->
  forallb isspace ws = true ->
  unit_letter u = true ->
  (forall (k : str -> option (str * str)) a,
      k rest = Some a -> matches unit_re ((u :: unit) ++ rest) k = Some a) ->
  match_groups2 number spaces unit_re (amount ++ ws ++ (u :: unit) ++ rest)
  = Some (amount, u :: unit).
Proof.
  intros Hn Hws Hu Hunit.
  destruct (unit_letter_facts u Hu) as (Hu1 & Hu2 & Hu3).
  unfold match_groups2. apply number_match; [exact Hn| |].
  - destruct ws as [|c ws]; cbn [app ends_number]; [now split|].
    cbn [forallb] in Hws; apply andb_prop in Hws as [Hc _].
    now apply space_facts.
  - unfold spaces; rewrite matches_Star.
    apply star_run; [exact Hws| |exact Hu1].
    apply Hunit. now rewrite !consumed_app.
Qed.

Lemma duration_unit_cases unit f :
  get DURATION_UNITS (lower unit) = Some f ->
  exists u unit', unit = u :: unit' /\ unit_letter u = true /\
    forall rest (k : str -> option (str * str)) a,
      k rest = Some a -> matches duration_unit (unit ++ rest) k = Some a.
Proof.
  unfold DURATION_UNITS; cbn [get].
  destruct (str_eqb (lower unit) (lit "ns")) eqn:E1;
    [|destruct (str_eqb (lower unit) (lit "us")) eqn:E2;
      [|destruct (str_eqb (lower unit) (lit "ms")) eqn:E3;
        [|destruct (str_eqb (lower unit) (lit "s")) eqn:E4; [|discriminate]]]];
    intros _;
    match goal with H : str_eqb _ _ = true |- _ => apply str_eqb_eq in H; rename H into E end;
    destruct unit as [|u unit]; try discriminate E;
    pose proof E as E'; injection E' as Hu _;
    exists u, unit; (split; [reflexivity|]);
    (split; [unfold unit_letter; rewrite Hu; reflexivity|]);
    intros rest k a Hk; unfold duration_unit; rewrite !matches_Alt.
  - now rewrite (word_i_match (lit "s") "n" _ _ _ E), Hk.
  - cbn [app]. rewrite (word_i_mismatch (lit "s") "n") by (rewrite Hu; discriminate).
    change (u :: unit ++ rest) with ((u :: unit) ++ rest).
    now rewrite (word_i_match (lit "s") "u" _ _ _ E), Hk.
  - cbn [app]. rewrite (word_i_mismatch (lit "s") "n") by (rewrite Hu; discriminate).
    rewrite (word_i_mismatch (lit "s") "u") by (rewrite Hu; discriminate).
    change (u :: unit ++ rest) with ((u :: unit) ++ rest).
    now rewrite (word_i_match (lit "s") "m" _ _ _ E), Hk.
  - cbn [app]. rewrite (word_i_mismatch (lit "s") "n") by (rewrite Hu; discriminate).
    rewrite (word_i_mismatch (lit "s") "u") by (rewrite Hu; discriminate).
    rewrite (word_i_mismatch (lit "s") "m") by (rewrite Hu; discriminate).
    change (u :: unit ++ rest) with ((u :: unit) ++ rest).
    now rewrite (word_i_match [] "s" _ _ _ E), Hk.
Qed.

Lemma bytes_unit_cases unit f :
  get BYTES_FACTORS (lower unit) = Some f ->
  exists u unit', unit = u :: unit' /\ unit_letter u = true /\
    forall rest (k : str -> option (str * str)) a,
      k rest = Some a -> matches bytes_unit (unit ++ rest) k = Some a.
Proof.
  unfold BYTES_FACTORS; cbn [get].
  destruct (str_eqb (lower unit) (lit "b")) eqn:E1;
    [|destruct (str_eqb (lower unit) (lit "kb")) eqn:E2;
      [|destruct (str_eqb (lower unit) (lit "mb")) eqn:E3; [|discriminate]]];
    intros _;
    match goal with H : str_eqb _ _ = true |- _ => apply str_eqb_eq in H; rename H into E end;
    destruct unit as [|u unit]; try discriminate E;
    pose proof E as E'; injection E' as Hu _;
    exists u, unit; (split; [reflexivity|]);
    (split; [unfold unit_letter; rewrite Hu; reflexivity|]);
    intros rest k a Hk; unfold bytes_unit; rewrite !matches_Alt.
  - now rewrite (word_i_match [] "B" _ _ _ E), Hk.
  - cbn [app]. rewrite (word_i_mismatch [] "B") by (rewrite Hu; discriminate).
    change (u :: unit ++ rest) with ((u :: unit) ++ rest).
    now rewrite (word_i_match (lit "B") "K" _ _ _ E), Hk.
  - cbn [app]. rewrite (word_i_mismatch [] "B") by (rewrite Hu; discriminate).
    rewrite (word_i_mismatch (lit "B") "K") by (rewrite Hu; discriminate).
    change (u :: unit ++ rest) with ((u :: unit) ++ rest).
    now rewrite (word_i_match (lit "B") "M" _ _ _ E), Hk.
Qed.

Lemma number_text_nonempty amount : number_text amount -> amount <> [].
Proof.
  intros (sign & ds1 & point & ds2 & -> & _ & _ & _ & _ & Hne) H.
  apply app_eq_nil in H as [_ H]. apply app_eq_nil in H as [_ H].
  apply app_eq_nil in H as [_ H]. contradiction.
Qed.



Lemma parse_duration_match value amount ws unit rest f :
  clean_duration value = amount ++ ws ++ unit ++ rest ->
  number_text amount ->
  forallb isspace ws = true ->
  get DURATION_UNITS (lower unit) = Some f ->
  parse_duration value = Return (Some (mul (of_str amount) f)).
Proof.
  intros Hclean Hn Hws Hf.
  destruct (duration_unit_cases unit f Hf) as (u & unit' & -> & Hu & Hunit).
  unfold parse_duration. fold (clean_duration value).
  destruct (strip value) as [|c x] eqn:E.
  - exfalso. unfold clean_duration in Hclean; rewrite E in Hclean.
    symmetry in Hclean; apply app_eq_nil in Hclean as [H _].
    now apply (number_text_nonempty amount).
  - cbn [truthy negb]. rewrite Hclean.
    rewrite (groups_match duration_unit amount ws u unit' rest Hn Hws Hu (Hunit rest)).
    unfold lookup; rewrite Hf; reflexivity.
Qed.

Lemma parse_bytes_match value amount ws unit rest f :
  clean_bytes value = amount ++ ws ++ unit ++ rest ->
  number_text amount ->
  forallb isspace ws = true ->
  get BYTES_FACTORS (lower unit) = Some f ->
  parse_bytes value = Return (Some (mul (of_str amount) (of_Z f))).
Proof.
  intros Hclean Hn Hws Hf.
  destruct (bytes_unit_cases unit f Hf) as (u & unit' & -> & Hu & Hunit).
  unfold parse_bytes. fold (clean_bytes value).
  destruct (strip value) as [|c x] eqn:E.
  - exfalso. unfold clean_bytes in Hclean; rewrite E in Hclean.
    symmetry in Hclean; apply app_eq_nil in Hclean as [H _].
    now apply (number_text_nonempty amount).
  - cbn [truthy negb]. rewrite Hclean.
    rewrite (groups_match bytes_unit amount ws u unit' rest Hn Hws Hu (Hunit rest)).
    unfold lookup; rewrite Hf; reflexivity.
Qed.

End ParserFacts.

(** C9.  Both parsers look only at the start of the text they match
    against: when it begins with a signed decimal number, white space
    (possibly none) and a recognised unit, in either case, the parse
    succeeds with the number times the factor of the unit, whatever
    follows the unit. *)
Theorem parse_ignores_what_follows (value amount ws unit rest : str) :
  number_text amount ->
  forallb Py.isspace ws = true ->
  (forall f,
      clean_duration value = amount ++ ws ++ unit ++ rest ->
      Dict.get CompareBenchmarks.DURATION_UNITS (Py.lower unit) = Some f ->
      CompareBenchmarks.parse_duration value
      = Return (Some (Float.mul (Float.of_str amount) f))) /\
  (forall f,
      clean_bytes value = amount ++ ws ++ unit ++ rest ->
      Dict.get CompareBenchmarks.BYTES_FACTORS (Py.lower unit) = Some f ->
      CompareBenchmarks.parse_bytes value
      = Return (Some (Float.mul (Float.of_str amount) (Float.of_Z f)))).
Proof.
  intros Hn Hws; split; intros f Hclean Hf.
  - now apply (parse_duration_match value amount ws unit rest).
  - now apply (parse_bytes_match value amount ws unit rest).
Qed.

Lemma number_text_digits ds :
  forallb Py.isdigit ds = true -> ds <> [] -> number_text ds.
Proof.
  intros H Hne; exists [], [], [], ds; cbn; intuition.
Qed.

(** ["10 seconds"] parses as 10 s and ["64 Bytes"] as 64 B. *)
Lemma parse_ignores_what_follows_witness :
  CompareBenchmarks.parse_duration (lit "10 seconds") = Return (Some (Float.of_Z 10)) /\
  CompareBenchmarks.parse_bytes (lit "64 Bytes") = Return (Some (Float.of_Z 64)).
Proof.
  split.
  - assert (Hn : number_text (lit "10")) by (apply number_text_digits; [reflexivity|discriminate]).
    destruct (parse_ignores_what_follows (lit "10 seconds") (lit "10") (lit " ")
                (lit "s") (lit "econds") Hn eq_refl) as [H _].
    exact (H (Float.of_Z 1) eq_refl eq_refl).
  - assert (Hn : number_text (lit "64")) by (apply number_text_digits; [reflexivity|discriminate]).
    destruct (parse_ignores_what_follows (lit "64 Bytes") (lit "64") (lit " ")
                (lit "B") (lit "ytes") Hn eq_refl) as [_ H].
    exact (H 1%Z eq_refl eq_refl).
Defined.

(** ** The comparison *)

Section ComparisonFacts.
Import Py Float Dict CompareBenchmarks.



(** A number minus itself is [+0.0]; divided by a positive number and
    multiplied by 100 it stays [+0.0]. *)
Lemma pct_delta_same x :
  positive_finite x = true -> pct_delta (Some x) (Some x) = lit "+0.0%".
Proof.
  destruct x as [s|s| |[|] m e]; try discriminate; intros _.
  unfold pct_delta, eqb, SFeqb, sub, SFsub.
  change (SFcompare (S754_finite false m e) (of_Z 0)) with (Some Gt).
  cbv iota. unfold cond_Zopp. rewrite Z.sub_diag.
  reflexivity.
Qed.

Lemma pct_delta_zero x y :
  is_zero x = true -> pct_delta (Some x) y = lit "n/a".
Proof.
  unfold is_zero, pct_delta; intros ->. now destruct y.
Qed.

Lemma pct_delta_none_l y : pct_delta None y = lit "n/a".
Proof. reflexivity. Qed.

Lemma pct_delta_none_r x : pct_delta x None = lit "n/a".
Proof. now destruct x. Qed.

(** *** The names of the table *)

Lemma str_compare_eq a b : str_compare a b = Eq -> a = b.
Proof.
  revert b; induction a as [|c a IH]; intros [|d b]; simpl; try discriminate; auto.
  destruct (code c ?= code d)%N eqn:E; try discriminate.
  intros H; apply N.compare_eq in E.
  unfold code in E. apply (f_equal ascii_of_N) in E.
  rewrite !ascii_N_embedding in E. now rewrite E, (IH b H).
Qed.

Lemma insert_name_In k l x : In x (insert_name k l) <-> x = k \/ In x l.
Proof.
  induction l as [|h l IH]; simpl; [intuition|].
  destruct (str_compare k h) eqn:E; simpl.
  - apply str_compare_eq in E; subst; intuition.
  - intuition.
  - rewrite IH; intuition.
Qed.

Lemma sorted_names_In base new x :
  In x (sorted_names base new) <-> In x (keys base) \/ In x (keys new).
Proof.
  unfold sorted_names. rewrite <- in_app_iff.
  induction (keys base ++ keys new) as [|k l IH]; simpl; [tauto|].
  rewrite insert_name_In, IH; intuition.
Qed.

Lemma get_keys {V} (d : dict V) k : In k (keys d) <-> exists v, get d k = Some v.
Proof.
  induction d as [|[k' v'] d IH]; simpl.
  - split; [tauto|intros [v H]; discriminate].
  - destruct (str_eqb k k') eqn:E.
    + apply str_eqb_eq in E; subst; split; eauto.
    + rewrite IH; split; [intros [->|H]; [|exact H]|auto].
      rewrite (proj2 (str_eqb_eq k k) eq_refl) in E; discriminate.
Qed.

End ComparisonFacts.




(** C4, as amended.  In the comparison of a result set with itself every
    row belongs to a key of the set, and each of its two deltas is
    ["+0.0%"] where the compared value is a finite number above zero and
    ["n/a"] where it is missing or zero; in any comparison both deltas
    are ["n/a"] for a key that one of the two sets does not have. *)
Theorem compare_with_itself :
  (forall A row,
      In row (data_rows A A) ->
      exists name r,
        Dict.get A name = Some r /\
        row = CompareBenchmarks.table_row A A name /\
        same_delta (CompareBenchmarks.mean_seconds r) (mean_delta row) /\
        same_delta (CompareBenchmarks.allocated_bytes r) (alloc_delta row)) /\
  (forall base new name,
      Dict.get base name = None \/ Dict.get new name = None ->
      mean_delta (CompareBenchmarks.table_row base new name) = lit "n/a" /\
      alloc_delta (CompareBenchmarks.table_row base new name) = lit "n/a").
Proof.
  split.
  - intros A row Hrow. unfold data_rows in Hrow.
    apply in_map_iff in Hrow as (name & <- & Hname).
    apply sorted_names_In in Hname.
    assert (Hin : In name (Dict.keys A)) by tauto.
    apply get_keys in Hin as [r Hr].
    exists name, r; repeat split; try assumption.
    + unfold mean_delta, CompareBenchmarks.table_row; cbn [nth]. rewrite Hr.
      cbn [CompareBenchmarks.field].
      destruct (CompareBenchmarks.mean_seconds r) as [x|]; [split|reflexivity].
      * apply pct_delta_zero.
      * apply pct_delta_same.
    + unfold alloc_delta, CompareBenchmarks.table_row; cbn [nth]. rewrite Hr.
      cbn [CompareBenchmarks.field].
      destruct (CompareBenchmarks.allocated_bytes r) as [x|]; [split|reflexivity].
      * apply pct_delta_zero.
      * apply pct_delta_same.
  - intros base new name [H|H]; unfold mean_delta, alloc_delta, CompareBenchmarks.table_row;
      cbn [nth]; rewrite H; cbn [CompareBenchmarks.field];
      split; first [apply pct_delta_none_l | apply pct_delta_none_r].
Qed.



Lemma compare_with_itself_witness :
  In (CompareBenchmarks.table_row results_no_alloc results_no_alloc (lit "Foo"))
     (data_rows results_no_alloc results_no_alloc) /\
  (exists name r,
      Dict.get results_no_alloc name = Some r /\
      CompareBenchmarks.table_row results_no_alloc results_no_alloc (lit "Foo")
      = CompareBenchmarks.table_row results_no_alloc results_no_alloc name /\
      same_delta (CompareBenchmarks.mean_seconds r)
                 (mean_delta (CompareBenchmarks.table_row results_no_alloc results_no_alloc (lit "Foo"))) /\
      same_delta (CompareBenchmarks.allocated_bytes r)
                 (alloc_delta (CompareBenchmarks.table_row results_no_alloc results_no_alloc (lit "Foo")))) /\
  mean_delta (CompareBenchmarks.table_row [] results_no_alloc (lit "Foo")) = lit "n/a" /\
  alloc_delta (CompareBenchmarks.table_row [] results_no_alloc (lit "Foo")) = lit "n/a".
Proof.
  assert (Hin : In (CompareBenchmarks.table_row results_no_alloc results_no_alloc (lit "Foo"))
                   (data_rows results_no_alloc results_no_alloc)) by (left; reflexivity).
  split; [exact Hin|split].
  - exact (proj1 compare_with_itself _ _ Hin).
  - exact (proj2 compare_with_itself [] results_no_alloc (lit "Foo") (or_introl eq_refl)).
Defined.

(** C4 fails as stated: a benchmark that allocates nothing is a shared
    key of the comparison of its report with itself, and its allocation
    delta is ["n/a"], not ["+0.0%"]. *)
Lemma compare_with_itself_counterexample :
  CompareBenchmarks.read_results report_no_alloc = Return results_no_alloc /\
  data_rows results_no_alloc results_no_alloc
  = [ [lit "Foo"; lit "120.000 ns"; lit "120.000 ns"; lit "+0.0%";
       lit "0 B"; lit "0 B"; lit "n/a"] ] /\
  ~ (forall row, In row (data_rows results_no_alloc results_no_alloc) ->
                 mean_delta row = lit "+0.0%" /\ alloc_delta row = lit "+0.0%").
Proof.
  split; [vm_compute; reflexivity|split; [vm_compute; reflexivity|]].
  intros H. destruct (H _ (or_introl eq_refl)) as [_ Ha].
  vm_compute in Ha. discriminate Ha.
Qed.

(** ** The table *)

Section TableFacts.
Import Py Float Dict CompareBenchmarks.














End TableFacts.






(** ** Loading a report *)


(** C6.  On a row that is shorter than the header, [csv.DictReader] fills
    the cells that are missing with [None]; [row.get("Mean", "")] then
    returns [None], not the default, and [parse_duration] raises on it:
    the report is not loaded. *)
Theorem read_results_short_row :
  CompareBenchmarks.DictReader report_short_row
  = [ [ (lit "Method", Some (lit "Foo")); (lit "Mean", None);
        (lit "StdDev", None); (lit "Allocated", None) ] ] /\
  CompareBenchmarks.read_results report_short_row = Raise AttributeError.
Proof. split; vm_compute; reflexivity. Qed.

(** ** The command line of the comparison *)

Section CommandLine.
Import Py Dict CompareBenchmarks.

Variable e : env.







End CommandLine.




(** ** The run orchestrator *)

Section OrchestratorFacts.
Import Py Dict Orchestrator.

Variable e : env.




Lemma extends_trans w1 w2 w3 : extends w1 w2 -> extends w2 w3 -> extends w1 w3.
Proof.
  intros [H1 (ev1 & E1)] [H2 (ev2 & E2)]; split; [congruence|].
  exists (ev1 ++ ev2); now rewrite E2, E1, app_assoc.
Qed.





Lemma quiet_try_finally {A} (body : io world A) handler :
  quiet body -> quiet handler -> quiet (try_finally body handler).
Proof.
  intros Hb Hh w; unfold try_finally.
  specialize (Hb w). destruct (body w) as [outcome w1]; cbn [snd] in Hb.
  specialize (Hh w1). destruct (handler w1) as [[u|ex] w2]; cbn [snd] in *;
    eapply extends_trans; eauto.
Qed.






Lemma vcs_effect_other cmd code sw :
  other_command cmd -> vcs_effect cmd code sw = sw.
Proof.
  intros [H1 H2]; unfold vcs_effect, cmd_eqb.
  destruct (negb (code =? 0)%Z); [reflexivity|].
  destruct (list_eq_dec (list_eq_dec ascii_dec) cmd JJ_NEW); [contradiction|].
  destruct (list_eq_dec (list_eq_dec ascii_dec) cmd JJ_UNDO); [contradiction|reflexivity].
Qed.


Lemma bench_command : other_command [BENCH_SCRIPT e; lit "run"].
Proof. split; intros H; [discriminate H|injection H as _ H; discriminate H]. Qed.





End OrchestratorFacts.

Section Restoration.
Import Py Dict Orchestrator.

Variable e : env.








End Restoration.


(** With collaborators for which every benchmark run fails, the parent
    benchmark fails, the working copy is restored, and then the failure
    surfaces. *)
Lemma parent_benchmark_fails :
  Orchestrator.checkout_parent_and_benchmark failing_benchmark (lit "/tmp/jj-bench-0") initial_world
  = (Raise AttributeError,
     {| Orchestrator.trace :=
          [ Orchestrator.Ran Orchestrator.JJ_NEW (Return 0%Z);
            Orchestrator.Printed (lit "Running benchmarks for parent...");
            Orchestrator.Ran [lit "/repo/benchmark.sh"; lit "run"] (Return 1%Z);
            Orchestrator.Printed RESTORING;
            Orchestrator.Ran Orchestrator.JJ_UNDO (Return 0%Z) ];
        Orchestrator.switched := false |}).
Proof. vm_compute; reflexivity. Qed.


(** * Further properties *)

(** ** The trailer editor: what an update keeps *)

Section TrailerUpdates.
Import Py Re Trailer.

Lemma rstrip_all_space x : forallb isspace x = true -> rstrip x = [].
Proof.
  intros H; unfold rstrip.
  assert (Hrev : forallb isspace (rev x) = true).
  { rewrite forallb_forall in *; intros c Hc; apply H; now apply in_rev. }
  clear H; induction (rev x) as [|c y IH]; [reflexivity|].
  cbn [forallb] in Hrev; apply andb_prop in Hrev as [Hc Hy].
  cbn [lstrip]; rewrite Hc; now apply IH.
Qed.

(** The text that [update_trailer] returns, from the lines it read and
    the place where its scan stopped. *)
Lemma update_trailer_from_lines existing key value body trailers :
  splitlines (rstrip existing) = body ++ trailers ->
  scan_trailers (body ++ trailers) (length (body ++ trailers)) = Return (length body) ->
  update_trailer existing key value =
  Return (heading (rstrip (join nl body))
          ++ terminated (other_trailers key trailers) ++ new_line key value ++ nl).
Proof.
  intros Hlines Hscan. unfold update_trailer. rewrite Hlines, Hscan; cbn [bind].
  rewrite firstn_app, firstn_all, Nat.sub_diag, firstn_O, app_nil_r.
  rewrite skipn_app, skipn_all, Nat.sub_diag, skipn_O; cbn [app].
  rewrite trailer_text_eq. fold (other_trailers key trailers).
  set (kept := other_trailers key trailers).
  set (body_text := rstrip (join nl body)).
  assert (truthy (terminated kept ++ new_line key value) = true) as ->.
  { rewrite new_line_eq. destruct (terminated kept), key; reflexivity. }
  unfold heading; destruct (truthy body_text); cbn [andb].
  - now rewrite <- !app_assoc.
  - now rewrite <- app_assoc.
Qed.

(** The lines of a text that [update_trailer] wrote, and where the scan
    stops in them. *)
Lemma update_reparsed body_text kept last :
  rstrip body_text = body_text ->
  forallb (fun l => single_line l) kept = true ->
  forallb is_trailer kept = true ->
  single_line last = true -> is_trailer last = true ->
  (exists y c, last = y ++ [c] /\ isspace c = false) ->
  splitlines (rstrip (heading body_text ++ terminated kept ++ last ++ nl))
  = body_lines body_text ++ (kept ++ [last]) /\
  scan_trailers (body_lines body_text ++ (kept ++ [last]))
                (length (body_lines body_text ++ (kept ++ [last])))
  = Return (length (body_lines body_text)).
Proof.
  intros Hbody Hsl Htr Hl1 Hl2 (y & c & Hlast & Hc).
  assert (Hne : last <> []) by (rewrite Hlast; destruct y; discriminate).
  assert (Hsplit : splitlines (terminated kept ++ last) = kept ++ [last]).
  { apply splitlines_lines; [|assumption..].
    apply Forall_forall; rewrite forallb_forall in Hsl; exact Hsl. }
  assert (Htail : forallb is_trailer (kept ++ [last]) = true).
  { rewrite forallb_app, Htr; cbn [forallb]; now rewrite Hl2. }
  replace (rstrip (heading body_text ++ terminated kept ++ last ++ nl))
    with (heading body_text ++ terminated kept ++ last).
  2:{ rewrite !app_assoc. unfold nl. rewrite rstrip_snoc_space by reflexivity.
      rewrite Hlast, !app_assoc. now rewrite rstrip_fixed. }
  unfold heading, body_lines; destruct (truthy body_text) eqn:Etruthy.
  - destruct (rstrip_last body_text) as [E|(b & d & E & Hd)];
      rewrite Hbody in E; [rewrite E in Etruthy; discriminate|].
    rewrite E, <- (app_assoc (b ++ [d])).
    change ((nl ++ nl) ++ terminated kept ++ last)
      with (LF :: LF :: (terminated kept ++ last)).
    rewrite (splitlines_text b d _ Hd).
    change (splitlines (LF :: terminated kept ++ last))
      with ([[]] ++ splitlines (terminated kept ++ last)).
    rewrite Hsplit, app_assoc. split; [reflexivity|].
    apply scan_trailers_stop; [exact Htail|now rewrite rev_app_distr].
  - cbn [app]; rewrite Hsplit. split; [reflexivity|].
    exact (scan_trailers_stop [] (kept ++ [last]) Htail I).
Qed.

Lemma is_lf_eq c : is_lf c = true -> c = LF.
Proof. destruct c as [[] [] [] [] [] [] [] []]; vm_compute; intros H; (reflexivity || discriminate H). Qed.

Lemma terminated_splitlines y c :
  lf_only (y ++ [c]) = true -> is_linebreak c = false ->
  terminated (splitlines (y ++ [c])) = (y ++ [c]) ++ [LF].
Proof.
  intros Hlf Hc; induction y as [|d y IH].
  - cbn [app]. rewrite splitlines_cons, Hc. reflexivity.
  - cbn [app lf_only forallb] in Hlf. apply andb_prop in Hlf as [Hd Hlf].
    change ((d :: y) ++ [c]) with (d :: (y ++ [c])). rewrite splitlines_cons.
    destruct (is_linebreak d) eqn:Ed; cbn [negb orb] in Hd.
    + apply is_lf_eq in Hd; subst d.
      change (after_break LF (y ++ [c])) with (y ++ [c]).
      unfold terminated in *; cbn [flat_map app]. now rewrite (IH Hlf).
    + specialize (IH Hlf).
      pose proof (splitlines_nonempty (y ++ [c])) as Hne.
      destruct (splitlines (y ++ [c])) as [|l ls].
      * exfalso; apply Hne; [destruct y; discriminate|reflexivity].
      * unfold terminated in *; cbn [flat_map app] in *.
        now rewrite IH.
Qed.

Lemma lf_only_app a b : lf_only (a ++ b) = lf_only a && lf_only b.
Proof. apply forallb_app. Qed.

Lemma single_line_lf_only x : single_line x = true -> lf_only x = true.
Proof.
  unfold single_line, lf_only; rewrite !forallb_forall; intros H c Hc.
  now rewrite (H c Hc).
Qed.

Lemma lf_only_join ls :
  forallb (fun l => single_line l) ls = true -> lf_only (join nl ls) = true.
Proof.
  induction ls as [|l ls IH]; [reflexivity|].
  cbn [forallb]; intros H; apply andb_prop in H as [Hl Hls].
  destruct ls as [|l' ls]; [now apply single_line_lf_only|].
  rewrite join_cons by discriminate.
  rewrite !lf_only_app, (single_line_lf_only l Hl), (IH Hls). reflexivity.
Qed.

Lemma lf_only_rstrip x : lf_only x = true -> lf_only (rstrip x) = true.
Proof.
  destruct (rstrip_split x) as (w & Hw & _); intros H.
  rewrite Hw, lf_only_app in H. now apply andb_prop in H.
Qed.

(** Reading back a body text that [update_trailer] wrote gives the same
    body text. *)
Lemma body_lines_text body_text :
  rstrip body_text = body_text -> lf_only body_text = true ->
  rstrip (join nl (body_lines body_text)) = body_text.
Proof.
  intros Hbody Hlf. unfold body_lines.
  destruct (rstrip_last body_text) as [E|(b & d & E & Hd)]; rewrite Hbody in E.
  - now rewrite E.
  - assert (Hbr : is_linebreak d = false).
    { destruct (is_linebreak d) eqn:Ed; [|reflexivity].
      apply linebreak_isspace in Ed; congruence. }
    rewrite E. assert (truthy (b ++ [d]) = true) as -> by (destruct b; reflexivity).
    rewrite join_snoc, app_nil_r.
    rewrite (terminated_splitlines b d) by (first [exact Hbr | now rewrite <- E]).
    rewrite rstrip_snoc_space by reflexivity. now apply rstrip_fixed.
Qed.

Lemma filter_other_trailers key kept last :
  forallb (fun line => negb (has_key key line)) kept = true ->
  has_key key last = true ->
  other_trailers key (kept ++ [last]) = kept.
Proof.
  intros Hkept Hlast. unfold other_trailers. rewrite filter_app; cbn [filter].
  rewrite Hlast; cbn [negb]. rewrite app_nil_r.
  induction kept as [|l kept IH]; [reflexivity|].
  cbn [forallb] in Hkept; apply andb_prop in Hkept as [Hl Hk].
  cbn [filter]; rewrite Hl. now rewrite (IH Hk).
Qed.

Lemma splitlines_all_single_line x :
  forallb (fun l => single_line l) (splitlines x) = true.
Proof. apply forallb_forall; intros l Hl; now apply (splitlines_single_line x). Qed.

Lemma forallb_firstn {A} (f : A -> bool) n l :
  forallb f l = true -> forallb f (firstn n l) = true.
Proof.
  rewrite !forallb_forall; intros H x Hx; apply H.
  rewrite <- (firstn_skipn n l); apply in_or_app; now left.
Qed.

Lemma forallb_skipn {A} (f : A -> bool) n l :
  forallb f l = true -> forallb f (skipn n l) = true.
Proof.
  rewrite !forallb_forall; intros H x Hx; apply H.
  rewrite <- (firstn_skipn n l); apply in_or_app; now right.
Qed.

(** What an update does to the lines it read. *)
Lemma update_trailer_lines existing key value :
  exists body trailers,
    splitlines (rstrip existing) = body ++ trailers /\
    scan_trailers (body ++ trailers) (length (body ++ trailers)) = Return (length body) /\
    trailer_block existing = Return trailers /\
    forallb (fun l => single_line l) body = true /\
    forallb (fun l => single_line l) trailers = true /\
    forallb is_trailer trailers = true /\
    update_trailer existing key value =
    Return (heading (rstrip (join nl body))
            ++ terminated (other_trailers key trailers) ++ new_line key value ++ nl).
Proof.
  destruct (scan_trailers_spec (splitlines (rstrip existing))) as (t & Ht & Hle & Hall).
  set (lines := splitlines (rstrip existing)) in *.
  assert (Hlines : lines = firstn t lines ++ skipn t lines)
    by (symmetry; apply firstn_skipn).
  assert (Hlen : length (firstn t lines) = t) by (rewrite length_firstn; lia).
  assert (Hscan : scan_trailers (firstn t lines ++ skipn t lines)
                    (length (firstn t lines ++ skipn t lines))
                  = Return (length (firstn t lines))).
  { rewrite <- Hlines, Hlen. exact Ht. }
  exists (firstn t lines), (skipn t lines).
  split; [exact Hlines|]. split; [exact Hscan|].
  split; [unfold trailer_block; fold lines; now rewrite Ht|].
  split; [apply forallb_firstn, splitlines_all_single_line|].
  split; [apply forallb_skipn, splitlines_all_single_line|].
  split; [exact Hall|].
  now apply update_trailer_from_lines.
Qed.

End TrailerUpdates.

(** X1.  An update changes the trailer block in one way: the lines with
    the key go, the other trailer lines stay in their order, and the new
    line comes last (for a key of the trailer shape and a value without
    line break). *)
Theorem update_trailer_block (existing key value : str) :
  trailer_key key = true ->
  single_line value = true ->
  exists old text,
    Trailer.trailer_block existing = Return old /\
    Trailer.update_trailer existing key value = Return text /\
    Trailer.trailer_block text
    = Return (other_trailers key old ++ [new_line key value]).
Proof.
  intros Hk Hv.
  destruct (update_trailer_lines existing key value)
    as (body & trailers & _ & _ & Hold & _ & Hsl & Htr & Htext).
  exists trailers; eexists; split; [exact Hold|split; [exact Htext|]].
  apply trailer_block_rebuilt.
  - apply rstrip_idem.
  - now apply forallb_filter.
  - now apply forallb_filter.
  - now apply new_line_single_line.
  - now apply new_line_is_trailer.
  - apply new_line_last.
Qed.

Lemma update_trailer_block_witness :
  trailer_key (lit "Benchmark") = true /\
  single_line (lit "+5.0% (1ms -> 1.05ms)") = true /\
  exists old text,
    Trailer.trailer_block example_description = Return old /\
    Trailer.update_trailer example_description (lit "Benchmark")
      (lit "+5.0% (1ms -> 1.05ms)") = Return text /\
    Trailer.trailer_block text
    = Return (other_trailers (lit "Benchmark") old
              ++ [new_line (lit "Benchmark") (lit "+5.0% (1ms -> 1.05ms)")]).
Proof.
  split; [reflexivity|split; [reflexivity|]].
  apply update_trailer_block; reflexivity.
Defined.

Section TrailerOverwrite.
Import Py Re Trailer.

Lemma update_of_update existing key v1 key2 v2 :
  trailer_key key = true -> single_line v1 = true ->
  exists body trailers,
    Trailer.update_trailer existing key v1
    = Return (heading (rstrip (join nl body))
              ++ terminated (other_trailers key trailers) ++ new_line key v1 ++ nl) /\
    Trailer.update_trailer existing key v2
    = Return (heading (rstrip (join nl body))
              ++ terminated (other_trailers key trailers) ++ new_line key v2 ++ nl) /\
    Trailer.trailer_block
      (heading (rstrip (join nl body))
       ++ terminated (other_trailers key trailers) ++ new_line key v1 ++ nl)
    = Return (other_trailers key trailers ++ [new_line key v1]) /\
    Trailer.update_trailer
      (heading (rstrip (join nl body))
       ++ terminated (other_trailers key trailers) ++ new_line key v1 ++ nl) key2 v2
    = Return (heading (rstrip (join nl body))
              ++ terminated (other_trailers key2
                               (other_trailers key trailers ++ [new_line key v1]))
              ++ new_line key2 v2 ++ nl).
Proof.
  intros Hk Hv.
  destruct (update_trailer_lines existing key v1)
    as (body & trailers & Hlines & Hscan & _ & Hbsl & Hsl & Htr & H1).
  exists body, trailers. split; [exact H1|].
  split; [now apply update_trailer_from_lines|].
  set (B := rstrip (join nl body)). set (kept := other_trailers key trailers).
  assert (HB : rstrip B = B) by apply rstrip_idem.
  assert (Hk1 : forallb (fun l => single_line l) kept = true) by now apply forallb_filter.
  assert (Hk2 : forallb is_trailer kept = true) by now apply forallb_filter.
  assert (Hn1 : single_line (new_line key v1) = true) by now apply new_line_single_line.
  assert (Hn2 : is_trailer (new_line key v1) = true) by now apply new_line_is_trailer.
  pose proof (new_line_last key v1) as Hn3.
  split; [now apply trailer_block_rebuilt|].
  destruct (update_reparsed B kept (new_line key v1) HB Hk1 Hk2 Hn1 Hn2 Hn3) as [Hl2 Hs2].
  rewrite (update_trailer_from_lines _ key2 v2 _ _ Hl2 Hs2).
  rewrite body_lines_text; [reflexivity|exact HB|].
  now apply lf_only_rstrip, lf_only_join.
Qed.

End TrailerOverwrite.

(** X2.  The last update wins: updating twice with the same key gives the
    very text that the second update alone gives, so a repeated update
    with the same value changes nothing (for a key of the trailer shape
    and a first value without line break). *)
Theorem update_trailer_overwrites (description key v1 v2 : str) :
  trailer_key key = true ->
  single_line v1 = true ->
  (once <- Trailer.update_trailer description key v1 ;;
   Trailer.update_trailer once key v2)
  = Trailer.update_trailer description key v2.
Proof.
  intros Hk Hv.
  destruct (update_of_update description key v1 key v2 Hk Hv)
    as (body & trailers & -> & -> & _ & H).
  cbn [bind]. rewrite H.
  rewrite filter_other_trailers;
    [reflexivity|apply forallb_filter_self|apply new_line_has_key].
Qed.

Lemma update_trailer_overwrites_witness :
  trailer_key (lit "Benchmark") = true /\
  single_line (lit "+4.0% (1ms -> 1.04ms)") = true /\
  (once <- Trailer.update_trailer example_description (lit "Benchmark")
             (lit "+4.0% (1ms -> 1.04ms)") ;;
   Trailer.update_trailer once (lit "Benchmark") summary_B)
  = Trailer.update_trailer example_description (lit "Benchmark") summary_B.
Proof.
  split; [reflexivity|split; [reflexivity|]].
  apply update_trailer_overwrites; reflexivity.
Defined.



(** X4.  For a description that is empty or holds only white space the
    result is the new trailer line and a newline, without a separating
    blank line. *)
Theorem update_trailer_blank (description key value : str) :
  forallb Py.isspace description = true ->
  Trailer.update_trailer description key value = Return (new_line key value ++ nl).
Proof.
  intros H.
  apply (update_trailer_from_lines description key value [] []).
  - now rewrite (rstrip_all_space description H).
  - reflexivity.
Qed.

Lemma update_trailer_blank_witness :
  forallb Py.isspace (lit "  " ++ nl ++ nl) = true /\
  Trailer.update_trailer (lit "  " ++ nl ++ nl) (lit "Benchmark") (lit "n/a")
  = Return (lit "Benchmark: n/a" ++ nl).
Proof.
  split; [reflexivity|].
  exact (update_trailer_blank (lit "  " ++ nl ++ nl) (lit "Benchmark") (lit "n/a") eq_refl).
Defined.

(** ** The unit parser: what a match shows *)

Section ParserSoundness.
Import Py Re Float Dict CompareBenchmarks.

Lemma or_else_some {A} (a b : option A) v :
  or_else a b = Some v -> a = Some v \/ b = Some v.
Proof. destruct a; cbn; auto. Qed.

Lemma star_sound {A} p x (k : str -> option A) a :
  star p x k = Some a ->
  exists run y, x = run ++ y /\ forallb p run = true /\ k y = Some a.
Proof.
  induction x as [|c x IH]; cbn [star]; intros H.
  - now exists [], [].
  - destruct (p c) eqn:Ec; [|now exists [], (c :: x)].
    apply or_else_some in H as [H|H]; [|now exists [], (c :: x)].
    destruct (IH H) as (run & y & -> & Hrun & Hk).
    exists (c :: run), y; cbn [forallb app]; now rewrite Ec.
Qed.

Lemma class_sound {A} p x (k : str -> option A) a :
  matches (Class p) x k = Some a ->
  exists c y, x = c :: y /\ p c = true /\ k y = Some a.
Proof.
  destruct x as [|c y]; cbn [matches]; [discriminate|].
  destruct (p c) eqn:E; [|discriminate]. intros H; now exists c, y.
Qed.

Lemma plus_sound {A} p x (k : str -> option A) a :
  matches (Plus p) x k = Some a ->
  exists run y, x = run ++ y /\ forallb p run = true /\ run <> [] /\ k y = Some a.
Proof.
  destruct x as [|c x]; cbn [matches]; [discriminate|].
  destruct (p c) eqn:E; [|discriminate]. intros H.
  apply star_sound in H as (run & y & -> & Hrun & Hk).
  exists (c :: run), y; cbn [forallb app]; rewrite E, Hrun.
  repeat split; [discriminate|exact Hk].
Qed.

Lemma sign_char c :
  is_code 45 c || is_code 43 c = true -> [c] = lit "-" \/ [c] = lit "+".
Proof.
  destruct c as [[] [] [] [] [] [] [] []]; vm_compute; intros H;
    try discriminate H; auto.
Qed.

Lemma number_sound {A} x (k : str -> option A) a :
  matches number x k = Some a ->
  exists amount y, x = amount ++ y /\ number_text amount /\ k y = Some a.
Proof.
  unfold number; rewrite matches_Seq, matches_Opt; intros H.
  assert (Hrest : forall x0,
             matches (Seq (Star isdigit) (Seq (Opt (chr ".")) (Plus isdigit))) x0 k = Some a ->
             exists ds1 point ds2 y,
               x0 = ds1 ++ point ++ ds2 ++ y /\
               forallb isdigit ds1 = true /\ In point [[]; lit "."] /\
               forallb isdigit ds2 = true /\ ds2 <> [] /\ k y = Some a).
  { clear x H; intros x H. rewrite matches_Seq, matches_Star in H.
    apply star_sound in H as (ds1 & y1 & -> & Hds1 & H).
    rewrite matches_Seq, matches_Opt in H.
    apply or_else_some in H as [H|H].
    - unfold chr in H. apply class_sound in H as (c & y2 & -> & Hc & H).
      apply Ascii.eqb_eq in Hc; subst c.
      apply plus_sound in H as (ds2 & y & -> & Hds2 & Hne & Hk).
      exists ds1, (lit "."), ds2, y. repeat split; auto. cbn; auto.
    - apply plus_sound in H as (ds2 & y & -> & Hds2 & Hne & Hk).
      exists ds1, [], ds2, y. repeat split; auto. cbn; auto. }
  apply or_else_some in H as [H|H].
  - apply class_sound in H as (c & x0 & -> & Hc & H).
    destruct (Hrest x0 H) as (ds1 & point & ds2 & y & -> & H1 & Hp & H2 & Hne & Hk).
    exists ([c] ++ ds1 ++ point ++ ds2), y. split; [now rewrite <- !app_assoc|].
    split; [|exact Hk].
    exists [c], ds1, point, ds2. repeat split; auto.
    destruct (sign_char c Hc) as [->| ->]; cbn; auto.
  - destruct (Hrest x H) as (ds1 & point & ds2 & y & -> & H1 & Hp & H2 & Hne & Hk).
    exists (ds1 ++ point ++ ds2), y. split; [now rewrite <- !app_assoc|].
    split; [|exact Hk].
    exists [], ds1, point, ds2. repeat split; auto. cbn; auto.
Qed.

Lemma chr_i_sound {A} d x (k : str -> option A) a :
  matches (chr_i d) x k = Some a ->
  exists c y, x = c :: y /\ lower_char c = lower_char d /\ k y = Some a.
Proof.
  unfold chr_i; intros H. apply class_sound in H as (c & y & -> & Hc & H).
  apply Ascii.eqb_eq in Hc. now exists c, y.
Qed.

Lemma word_i_sound {A} w c x (k : str -> option A) a :
  matches (word_i c w) x k = Some a ->
  exists u rest, x = u ++ rest /\ lower u = lower (c :: w) /\ k rest = Some a.
Proof.
  revert c x; induction w as [|d w IH]; intros c x; cbn [word_i]; intros H.
  - apply chr_i_sound in H as (c' & y & -> & Hc & Hk).
    exists [c'], y; unfold lower; cbn [map app]. now rewrite Hc.
  - rewrite matches_Seq in H. apply chr_i_sound in H as (c' & y & -> & Hc & H).
    destruct (IH d y H) as (u & rest & -> & Hu & Hk).
    exists (c' :: u), rest. unfold lower in *; cbn [map app] in *.
    now rewrite Hc, Hu.
Qed.

Lemma duration_unit_sound {A} x (k : str -> option A) a :
  matches duration_unit x k = Some a ->
  exists u rest f,
    x = u ++ rest /\ get DURATION_UNITS (lower u) = Some f /\ k rest = Some a.
Proof.
  unfold duration_unit; rewrite !matches_Alt; intros H.
  repeat (apply or_else_some in H as [H|H]);
    apply word_i_sound in H as (u & rest & -> & Hu & Hk);
    exists u, rest; rewrite Hu; eexists; (split; [reflexivity|]);
    (split; [reflexivity|exact Hk]).
Qed.

Lemma bytes_unit_sound {A} x (k : str -> option A) a :
  matches bytes_unit x k = Some a ->
  exists u rest f,
    x = u ++ rest /\ get BYTES_FACTORS (lower u) = Some f /\ k rest = Some a.
Proof.
  unfold bytes_unit; rewrite !matches_Alt; intros H.
  repeat (apply or_else_some in H as [H|H]);
    apply word_i_sound in H as (u & rest & -> & Hu & Hk);
    exists u, rest; rewrite Hu; eexists; (split; [reflexivity|]);
    (split; [reflexivity|exact Hk]).
Qed.

(** The two groups of a match, and the text around them. *)
Lemma groups_sound unit_re (known : str -> Prop) x amount unit :
  (forall z (k : str -> option (str * str)) a,
      matches unit_re z k = Some a ->
      exists u rest, z = u ++ rest /\ known u /\ k rest = Some a) ->
  match_groups2 number spaces unit_re x = Some (amount, unit) ->
  exists ws rest,
    x = amount ++ ws ++ unit ++ rest /\ number_text amount /\
    forallb isspace ws = true /\ known unit.
Proof.
  intros Hunit H. unfold match_groups2 in H.
  apply number_sound in H as (amount' & y & -> & Hn & H).
  unfold spaces in H; rewrite matches_Star in H.
  apply star_sound in H as (ws & z & -> & Hws & H).
  apply Hunit in H as (u & rest & -> & Hu & H).
  rewrite !consumed_app in H. injection H as <- <-.
  now exists ws, rest.
Qed.

Lemma parse_duration_cases value :
  parse_duration value = Return None \/
  exists amount ws unit rest f,
    clean_duration value = amount ++ ws ++ unit ++ rest /\
    number_text amount /\ forallb isspace ws = true /\
    get DURATION_UNITS (lower unit) = Some f /\
    parse_duration value = Return (Some (mul (of_str amount) f)).
Proof.
  unfold parse_duration. fold (clean_duration value).
  destruct (negb (truthy (strip value))); [now left|].
  destruct (match_groups2 number spaces duration_unit (clean_duration value))
    as [[amount unit]|] eqn:E; [right|now left].
  apply (groups_sound duration_unit
           (fun u => exists f, get DURATION_UNITS (lower u) = Some f)) in E.
  - destruct E as (ws & rest & Hx & Hn & Hws & f & Hf).
    exists amount, ws, unit, rest, f. repeat split; try assumption.
    unfold lookup; now rewrite Hf.
  - intros z k a H. apply duration_unit_sound in H as (u & rest & f & -> & Hf & Hk).
    exists u, rest; eauto.
Qed.

Lemma parse_bytes_cases value :
  parse_bytes value = Return None \/
  exists amount ws unit rest f,
    clean_bytes value = amount ++ ws ++ unit ++ rest /\
    number_text amount /\ forallb isspace ws = true /\
    get BYTES_FACTORS (lower unit) = Some f /\
    parse_bytes value = Return (Some (mul (of_str amount) (of_Z f))).
Proof.
  unfold parse_bytes. fold (clean_bytes value).
  destruct (negb (truthy (strip value))); [now left|].
  destruct (match_groups2 number spaces bytes_unit (clean_bytes value))
    as [[amount unit]|] eqn:E; [right|now left].
  apply (groups_sound bytes_unit
           (fun u => exists f, get BYTES_FACTORS (lower u) = Some f)) in E.
  - destruct E as (ws & rest & Hx & Hn & Hws & f & Hf).
    exists amount, ws, unit, rest, f. repeat split; try assumption.
    unfold lookup; now rewrite Hf.
  - intros z k a H. apply bytes_unit_sound in H as (u & rest & f & -> & Hf & Hk).
    exists u, rest; eauto.
Qed.

Lemma parse_duration_returns value : exists d, parse_duration value = Return d.
Proof.
  destruct (parse_duration_cases value) as [H|(? & ? & ? & ? & ? & _ & _ & _ & _ & H)];
    rewrite H; eauto.
Qed.

Lemma parse_bytes_returns value : exists d, parse_bytes value = Return d.
Proof.
  destruct (parse_bytes_cases value) as [H|(? & ? & ? & ? & ? & _ & _ & _ & _ & H)];
    rewrite H; eauto.
Qed.

End ParserSoundness.

(** X5.  On every text the two parsers return, a number or [None]: the
    unit that the pattern accepts is always a key of the table of
    factors, in whatever case it is written, so the lookup never fails
    (texts of Latin-1 characters). *)
Theorem parsers_never_raise (value : str) :
  (exists seconds, CompareBenchmarks.parse_duration value = Return seconds) /\
  (exists bytes, CompareBenchmarks.parse_bytes value = Return bytes).
Proof.
  split; [apply parse_duration_returns|apply parse_bytes_returns].
Qed.

(** X6.  [parse_duration] gives a number only for a text that, once
    stripped, without its commas and with [u] for the micro sign, starts
    with a number, white space or none, and one of the units ns, us, ms
    and s in either case; the number is then the amount times the
    factor of the unit. *)
Theorem parse_duration_shape (value : str) (seconds : Float.float) :
  CompareBenchmarks.parse_duration value = Return (Some seconds) ->
  exists amount ws unit rest f,
    clean_duration value = amount ++ ws ++ unit ++ rest /\
    number_text amount /\
    forallb Py.isspace ws = true /\
    Dict.get CompareBenchmarks.DURATION_UNITS (Py.lower unit) = Some f /\
    seconds = Float.mul (Float.of_str amount) f.
Proof.
  intros H.
  destruct (parse_duration_cases value)
    as [H0|(amount & ws & unit & rest & f & Hc & Hn & Hws & Hf & Hv)].
  - rewrite H0 in H; discriminate H.
  - rewrite Hv in H; injection H as <-. now exists amount, ws, unit, rest, f.
Qed.

Lemma parse_duration_shape_witness :
  exists amount ws unit rest f,
    clean_duration (lit " 1,250.5 " ++ CompareBenchmarks.MICRO :: lit "s/op") = amount ++ ws ++ unit ++ rest /\
    number_text amount /\
    forallb Py.isspace ws = true /\
    Dict.get CompareBenchmarks.DURATION_UNITS (Py.lower unit) = Some f /\
    Float.mul (Float.of_str (lit "1250.5")) (Float.of_ratio false 1 1000000)
    = Float.mul (Float.of_str amount) f.
Proof.
  apply (parse_duration_shape (lit " 1,250.5 " ++ CompareBenchmarks.MICRO :: lit "s/op")).
  vm_compute; reflexivity.
Defined.

(** X7.  [parse_bytes] gives a number only for a text that, once
    stripped and without its commas, starts with a number, white space
    or none, and one of the units B, KB and MB in either case; the
    number is then the amount times 1, 1024 or 1024 * 1024. *)
Theorem parse_bytes_shape (value : str) (bytes : Float.float) :
  CompareBenchmarks.parse_bytes value = Return (Some bytes) ->
  exists amount ws unit rest f,
    clean_bytes value = amount ++ ws ++ unit ++ rest /\
    number_text amount /\
    forallb Py.isspace ws = true /\
    Dict.get CompareBenchmarks.BYTES_FACTORS (Py.lower unit) = Some f /\
    bytes = Float.mul (Float.of_str amount) (Float.of_Z f).
Proof.
  intros H.
  destruct (parse_bytes_cases value)
    as [H0|(amount & ws & unit & rest & f & Hc & Hn & Hws & Hf & Hv)].
  - rewrite H0 in H; discriminate H.
  - rewrite Hv in H; injection H as <-. now exists amount, ws, unit, rest, f.
Qed.

Lemma parse_bytes_shape_witness :
  exists amount ws unit rest f,
    clean_bytes (lit "1,024 kb") = amount ++ ws ++ unit ++ rest /\
    number_text amount /\
    forallb Py.isspace ws = true /\
    Dict.get CompareBenchmarks.BYTES_FACTORS (Py.lower unit) = Some f /\
    Float.of_Z (1024 * 1024)
    = Float.mul (Float.of_str amount) (Float.of_Z f).
Proof.
  apply (parse_bytes_shape (lit "1,024 kb")).
  vm_compute; reflexivity.
Defined.

(** ** Reading a report: complete rows, repeated names *)

Section ReportFacts.
Import Py Re Float Dict CompareBenchmarks.

Lemma get_set {V} (d : dict V) k v k' :
  get (set d k v) k' = if str_eqb k' k then Some v else get d k'.
Proof.
  induction d as [|[k0 v0] d IH]; cbn [set get]; [reflexivity|].
  destruct (str_eqb k k0) eqn:E; cbn [get].
  - apply str_eqb_eq in E; subst k0. now destruct (str_eqb k' k).
  - rewrite IH. destruct (str_eqb k' k0) eqn:E0; [|reflexivity].
    destruct (str_eqb k' k) eqn:E1; [|reflexivity].
    apply str_eqb_eq in E0, E1; subst.
    assert (E1 : str_eqb k0 k0 = true) by now apply str_eqb_eq.
    rewrite E1 in E; discriminate E.
Qed.





Lemma read_rows_app results rows1 rows2 :
  read_rows results (rows1 ++ rows2)
  = (results1 <- read_rows results rows1 ;; read_rows results1 rows2).
Proof.
  revert results; induction rows1 as [|row rows1 IH]; intros results;
    cbn [app read_rows bind]; [reflexivity|].
  destruct (read_row results row) as [results1|ex]; cbn [bind]; [apply IH|reflexivity].
Qed.

(** A row adds one entry, the same whatever was read before. *)
Lemma read_row_set results row results' :
  read_row results row = Return results' ->
  exists method record,
    results' = set results method record /\
    forall other, read_row other row = Return (set other method record).
Proof.
  unfold read_row.
  destruct (on_str _ (row_get row (lit "Method"))) as [method|]; cbn [bind]; [|discriminate].
  destruct (on_str parse_duration (row_get row (lit "Mean"))) as [mean|];
    cbn [bind]; [|discriminate].
  destruct (on_str parse_duration (row_get row (lit "StdDev"))) as [stddev|];
    cbn [bind]; [|discriminate].
  destruct (on_str parse_bytes (row_get row (lit "Allocated"))) as [alloc|];
    cbn [bind]; [|discriminate].
  intros H; injection H as <-. eauto.
Qed.

Lemma read_results_snoc fieldnames rows row results :
  nonempty_row row = true ->
  read_results (fieldnames :: rows ++ [row]) = Return results ->
  exists earlier method record,
    read_results (fieldnames :: rows) = Return earlier /\
    read_results [fieldnames; row] = Return [(method, record)] /\
    get results method = Some record /\
    forall name, name <> method -> get results name = get earlier name.
Proof.
  intros Hne. unfold read_results, DictReader.
  rewrite filter_app, map_app, read_rows_app. cbn [filter]; rewrite Hne.
  cbn [map read_rows].
  destruct (read_rows [] (map (dict_of_row fieldnames) (filter nonempty_row rows)))
    as [earlier|ex]; cbn [bind]; [|discriminate].
  destruct (read_row earlier (dict_of_row fieldnames row)) as [results'|ex] eqn:E;
    cbn [bind]; [|discriminate].
  intros H; injection H as <-.
  apply read_row_set in E as (method & record & -> & Hrow).
  exists earlier, method, record. rewrite (Hrow []); cbn [bind set].
  repeat split.
  - rewrite get_set.
    assert (E : str_eqb method method = true) by now apply str_eqb_eq.
    now rewrite E.
  - intros name Hname. rewrite get_set.
    destruct (str_eqb name method) eqn:E; [|reflexivity].
    now apply str_eqb_eq in E.
Qed.

End ReportFacts.



(** X9.  The last row of a name wins: after a further row the results
    hold, under the name of that row, exactly what the row alone reads
    as, and for every other name what they held before. *)
Theorem read_results_last_row (fieldnames : list str) (rows : list (list str))
        (row : list str) (results : Dict.dict CompareBenchmarks.BenchmarkResult) :
  CompareBenchmarks.nonempty_row row = true ->
  CompareBenchmarks.read_results (fieldnames :: rows ++ [row]) = Return results ->
  exists earlier method record,
    CompareBenchmarks.read_results (fieldnames :: rows) = Return earlier /\
    CompareBenchmarks.read_results [fieldnames; row] = Return [(method, record)] /\
    Dict.get results method = Some record /\
    forall name, name <> method -> Dict.get results name = Dict.get earlier name.
Proof. exact (read_results_snoc fieldnames rows row results). Qed.

Lemma read_results_last_row_witness :
  exists earlier method record,
    CompareBenchmarks.read_results (firstn 3 report_repeated) = Return earlier /\
    CompareBenchmarks.read_results
      [nth 0 report_repeated []; nth 3 report_repeated []]
    = Return [(method, record)] /\
    (exists old, Dict.get earlier method = Some old /\ old <> record) /\
    forall results,
      CompareBenchmarks.read_results report_repeated = Return results ->
      Dict.get results method = Some record /\
      Dict.get results (lit "Bar") = Dict.get earlier (lit "Bar").
Proof.
  destruct (read_results_last_row
              (nth 0 report_repeated [])
              (firstn 2 (skipn 1 report_repeated))
              (nth 3 report_repeated [])
              (match CompareBenchmarks.read_results report_repeated with
               | Return results => results
               | Raise _ => []
               end) eq_refl)
    as (earlier & method & record & H1 & H2 & H3 & H4).
  - vm_compute; reflexivity.
  - exists earlier, method, record.
    vm_compute in H1; injection H1 as <-.
    vm_compute in H2; injection H2 as <- <-.
    split; [vm_compute; reflexivity|].
    split; [vm_compute; reflexivity|].
    split.
    + eexists; split; [vm_compute; reflexivity|discriminate].
    + intros results H. vm_compute in H; injection H as <-.
      split; vm_compute; reflexivity.
Defined.

(** ** The rows of the table *)

Section TableRows.
Import Py Float Dict CompareBenchmarks.










End TableRows.




Section SummaryFacts.
Import Py Float Dict CompareBenchmarks Orchestrator.

Lemma format_pct_delta old new :
  format_pct (compute_mean_delta old new)
  = pct_delta (field mean_seconds old) (field mean_seconds new).
Proof.
  destruct old as [[[old_mean|] ? ?]|], new as [[[new_mean|] ? ?]|];
    cbn [compute_mean_delta field mean_seconds pct_delta format_pct]; try reflexivity.
  now destruct (eqb old_mean (of_Z 0)).
Qed.

End SummaryFacts.

(** X12.  The summary of the trailer agrees with the table: it has one
    entry for every row below the header, in the same order, and the
    entry of a name holds the cells Mean Delta, Base Mean and New Mean
    of its row. *)
Theorem summarize_table (base new : Dict.dict CompareBenchmarks.BenchmarkResult) :
  Orchestrator.summarize base new
  = Py.join (nl ++ lit "  ")
      (map (fun name => summary_entry (CompareBenchmarks.table_row base new name) name)
           (CompareBenchmarks.sorted_names base new)).
Proof.
  unfold Orchestrator.summarize. f_equal. apply map_ext; intros name.
  unfold summary_entry, CompareBenchmarks.table_row; cbn [nth].
  now rewrite format_pct_delta.
Qed.

(** ** The commands of a run *)

Section RunFacts.
Import Py Dict Orchestrator.
Variable e : env.

Lemma new_events_app w w' events :
  trace w' = trace w ++ events -> new_events w w' = events.
Proof.
  unfold new_events; intros ->.
  rewrite skipn_app, skipn_all, Nat.sub_diag. reflexivity.
Qed.

Lemma commands_app a b : commands (a ++ b) = commands a ++ commands b.
Proof. unfold commands; apply flat_map_app. Qed.

Lemma commands_ran cmd status events :
  commands (Ran cmd status :: events) = (cmd, status) :: commands events.
Proof. reflexivity. Qed.

Lemma commands_printed text events : commands (Printed text :: events) = commands events.
Proof. reflexivity. Qed.

Lemma commands_copied src dst events : commands (Copied src dst :: events) = commands events.
Proof. reflexivity. Qed.

Lemma does_bind_return {A B} (m : io world A) (k : A -> io world B)
      w a ev1 sw1 outcome ev2 sw2 :
  does m w (Return a) ev1 sw1 ->
  does (k a) {| trace := trace w ++ ev1; switched := sw1 |} outcome ev2 sw2 ->
  does (bind_io m k) w outcome (ev1 ++ ev2) sw2.
Proof.
  unfold does, bind_io; intros -> H. rewrite H; cbn [trace].
  now rewrite app_assoc.
Qed.

Lemma does_bind_raise {A B} (m : io world A) (k : A -> io world B) w ex ev sw :
  does m w (Raise ex) ev sw -> does (bind_io m k) w (Raise ex) ev sw.
Proof. unfold does, bind_io; now intros ->. Qed.

Lemma does_copy src dst w :
  does (copy e src dst) w (shutil_copy e (trace w) src dst) [Copied src dst] (switched w).
Proof. reflexivity. Qed.

Lemma does_read_results path w :
  exists outcome, does (read_results e path) w outcome [] (switched w).
Proof.
  eexists. unfold does, read_results. rewrite app_nil_r.
  destruct w; reflexivity.
Qed.

Lemma vcs_effect_failed cmd code sw :
  (code =? 0)%Z = false -> vcs_effect cmd code sw = sw.
Proof. intros H; unfold vcs_effect; now rewrite H. Qed.

(** A command either returns zero, and [run] returns, with the output
    if it was captured; or it fails, and [run] raises. *)
Lemma run_cases cmd capture w :
  (exists r,
      does (run e cmd capture) w (Return r) [Ran cmd OK] (vcs_effect cmd 0 (switched w)) /\
      (capture = true -> exists out, stdout r = Some out)) \/
  (exists ex status,
      succeeded status = false /\
      does (run e cmd capture) w (Raise ex) [Ran cmd status] (switched w)).
Proof.
  unfold does, run, bind_io, subprocess.
  destruct (subprocess_run e (trace w) cmd) as [o|ex].
  - cbn [returncode].
    destruct (out_code o =? 0)%Z eqn:E; cbn [negb].
    + left. apply Z.eqb_eq in E. rewrite E. eexists; split; [reflexivity|].
      intros ->; cbn [stdout]; eauto.
    + right. rewrite (vcs_effect_failed cmd (out_code o) (switched w) E).
      destruct capture; cbn [stderr stdout strip_stream lift raise];
        eexists; exists (Return (out_code o)); (split; [exact E|reflexivity]).
  - right. exists ex, (Raise ex). split; reflexivity.
Qed.

Lemma vcs_effect_bench sw : vcs_effect [BENCH_SCRIPT e; lit "run"] 0 sw = sw.
Proof. apply vcs_effect_other, bench_command. Qed.

(** A benchmark run: four events when all goes well; otherwise the
    announcement, the command, and no further command. *)
Lemma run_benchmark_cases label tmpdir w :
  does (run_benchmark e label tmpdir) w
       (Return (tmpdir ++ lit "/" ++ label ++ lit ".csv"))
       (bench_events e label tmpdir) (switched w) \/
  (exists ex status rest,
      does (run_benchmark e label tmpdir) w (Raise ex)
           (Printed (lit "Running benchmarks for " ++ label ++ lit "...")
              :: Ran (BENCH e) status :: rest) (switched w) /\
      commands rest = [] /\
      (succeeded status = false -> rest = [])).
Proof.
  pose (w1 := {| trace := trace w
                          ++ [Printed (lit "Running benchmarks for " ++ label ++ lit "...")];
                 switched := switched w |}).
  destruct (run_cases (BENCH e) false w1) as [(r & Hrun & _)|(ex & status & Hst & Hrun)];
    unfold does, BENCH in Hrun |- *; unfold run_benchmark, bind_io, print;
    fold w1; rewrite Hrun; unfold w1; cbn [trace switched].
  - rewrite vcs_effect_bench.
    destruct (csv_exists e _); cbn [negb].
    + unfold copy; cbn [trace switched].
      destruct (shutil_copy e _ _ _) as [[]|ex].
      * left. unfold bench_events, BENCH, OK. rewrite <- !app_assoc. reflexivity.
      * right. exists ex, OK, [Copied (DEFAULT_CSV e) (tmpdir ++ lit "/" ++ label ++ lit ".csv")].
        split; [rewrite <- !app_assoc; reflexivity|].
        split; [reflexivity|discriminate].
    + right. eexists; exists OK, [].
      split; [unfold raise; rewrite <- !app_assoc; reflexivity|].
      split; [reflexivity|discriminate].
  - right. exists ex, status, [].
    split; [rewrite <- !app_assoc; reflexivity|].
    split; reflexivity.
Qed.

Lemma vcs_effect_new sw : vcs_effect JJ_NEW 0 sw = true.
Proof. reflexivity. Qed.

Lemma vcs_effect_undo sw : vcs_effect JJ_UNDO 0 sw = false.
Proof. reflexivity. Qed.

(** The restoration: the announcement and [jj undo]. *)
Lemma restore_cases w :
  does (restore e) w (Return tt) [Printed RESTORING; Ran JJ_UNDO OK] false \/
  (exists ex status,
      succeeded status = false /\
      does (restore e) w (Raise ex) [Printed RESTORING; Ran JJ_UNDO status] (switched w)).
Proof.
  destruct (run_cases JJ_UNDO false
              {| trace := trace w ++ [Printed RESTORING]; switched := switched w |})
    as [(r & Hrun & _)|(ex & status & Hst & Hrun)];
    unfold does in Hrun |- *; cbn [trace switched] in Hrun;
    unfold restore, bind_io, print; fold RESTORING; rewrite Hrun.
  - left. rewrite vcs_effect_undo, <- !app_assoc. reflexivity.
  - right. exists ex, status. split; [exact Hst|].
    rewrite <- !app_assoc. reflexivity.
Qed.

(** The parent benchmark: [jj new @-] alone when it fails; otherwise
    the benchmark run and the restoration, whatever the benchmark run
    did. *)
Lemma checkout_cases tmpdir w :
  does (checkout_parent_and_benchmark e tmpdir) w
       (Return (tmpdir ++ lit "/" ++ lit "parent" ++ lit ".csv"))
       (Ran JJ_NEW OK :: bench_events e (lit "parent") tmpdir
          ++ [Printed RESTORING; Ran JJ_UNDO OK]) false \/
  (exists ex status,
      succeeded status = false /\
      does (checkout_parent_and_benchmark e tmpdir) w (Raise ex)
           [Ran JJ_NEW status] (switched w)) \/
  (exists ex status rest status' sw,
      does (checkout_parent_and_benchmark e tmpdir) w (Raise ex)
           (Ran JJ_NEW OK
              :: Printed (lit "Running benchmarks for " ++ lit "parent" ++ lit "...")
              :: Ran (BENCH e) status
              :: rest ++ [Printed RESTORING; Ran JJ_UNDO status']) sw /\
      commands rest = []).
Proof.
  destruct (run_cases JJ_NEW false w) as [(r & Hnew & _)|(ex & status & Hst & Hnew)];
    unfold does in Hnew |- *; unfold checkout_parent_and_benchmark, bind_io;
    rewrite Hnew.
  2:{ right; left. now exists ex, status. }
  rewrite vcs_effect_new. unfold try_finally.
  destruct (run_benchmark_cases (lit "parent") tmpdir
              {| trace := trace w ++ [Ran JJ_NEW OK]; switched := true |})
    as [Hb|(ex & status & rest & Hb & Hrest & _)];
    unfold does in Hb; cbn [trace switched] in Hb; rewrite Hb.
  - destruct (restore_cases
                {| trace := (trace w ++ [Ran JJ_NEW OK]) ++ bench_events e (lit "parent") tmpdir;
                   switched := true |})
      as [Hr|(ex & status' & Hst & Hr)];
      unfold does in Hr; cbn [trace switched] in Hr; rewrite Hr.
    + left. rewrite <- !app_assoc. reflexivity.
    + right; right. exists ex, OK, (skipn 2 (bench_events e (lit "parent") tmpdir)), status', true.
      split; [rewrite <- !app_assoc; reflexivity|reflexivity].
  - destruct (restore_cases
                {| trace := (trace w ++ [Ran JJ_NEW OK])
                            ++ Printed (lit "Running benchmarks for " ++ lit "parent" ++ lit "...")
                               :: Ran (BENCH e) status :: rest;
                   switched := true |})
      as [Hr|(ex' & status' & Hst & Hr)];
      unfold does in Hr; cbn [trace switched] in Hr; rewrite Hr.
    + right; right. exists ex, status, rest, OK, false.
      split; [rewrite <- !app_assoc; reflexivity|exact Hrest].
    + right; right. exists ex', status, rest, status', true.
      split; [rewrite <- !app_assoc; reflexivity|exact Hrest].
Qed.

Lemma other_describe desc : other_command (jj_describe desc).
Proof. split; discriminate. Qed.

Lemma other_log : other_command JJ_LOG.
Proof. split; discriminate. Qed.

(** Writing the trailer: [jj log] alone when it fails; otherwise the
    three announcements and [jj describe] with the updated description. *)
Lemma append_trailer_cases table base new w :
  (exists out desc,
      Trailer.update_trailer (rstrip_newlines out) Trailer.TRAILER_KEY (summarize base new)
      = Return desc /\
      does (append_trailer e table base new) w (Return tt)
           (trailer_events table
              ++ [Ran (jj_describe desc) OK;
                  Printed (lit "Added trailer: " ++ Trailer.TRAILER_KEY ++ lit ": "
                           ++ summarize base new)])
           (switched w)) \/
  (exists ex status,
      succeeded status = false /\
      does (append_trailer e table base new) w (Raise ex) [Ran JJ_LOG status] (switched w)) \/
  (exists ex desc status,
      succeeded status = false /\
      does (append_trailer e table base new) w (Raise ex)
           (trailer_events table ++ [Ran (jj_describe desc) status]) (switched w)).
Proof.
  destruct (run_cases JJ_LOG true w) as [(r & Hlog & Hout)|(ex & status & Hst & Hlog)];
    unfold does, JJ_LOG in Hlog |- *; unfold append_trailer, bind_io;
    rewrite Hlog.
  2:{ right; left. now exists ex, status. }
  fold JJ_LOG. rewrite (vcs_effect_other _ _ _ other_log).
  destruct (Hout eq_refl) as [out ->]. unfold lift.
  destruct (update_trailer_returns (rstrip_newlines out) Trailer.TRAILER_KEY
              (summarize base new)) as [desc Hdesc].
  rewrite Hdesc. unfold print; cbn [trace switched].
  destruct (run_cases (jj_describe desc) false
              {| trace := (((trace w ++ [Ran JJ_LOG OK])
                            ++ [Printed (nl ++ lit "Benchmark comparison:" ++ nl)])
                           ++ [Printed table])
                          ++ [Printed (nl ++ lit "Updating current change description with trailer...")];
                 switched := switched w |})
    as [(r' & Hrun & _)|(ex & status & Hst & Hrun)];
    unfold does, jj_describe in Hrun; cbn [trace switched] in Hrun; rewrite Hrun.
  - left. exists out, desc. split; [exact Hdesc|].
    fold (jj_describe desc). rewrite (vcs_effect_other _ _ _ (other_describe desc)).
    unfold trailer_events. cbn [trace switched]. rewrite <- !app_assoc. reflexivity.
  - right; right. exists ex, desc, status. split; [exact Hst|].
    unfold trailer_events, jj_describe. cbn [trace switched].
    rewrite <- !app_assoc. reflexivity.
Qed.

Lemma does_main w outcome events sw :
  does (main_body e (tmp e)) w outcome events sw ->
  does (main e) w outcome (events ++ [Removed (tmp e)]) sw.
Proof.
  unfold does, main, try_finally, remove_tmp; intros ->; cbn [trace switched].
  rewrite <- app_assoc. now destruct outcome.
Qed.

Lemma commands_bench label tmpdir :
  commands (bench_events e label tmpdir) = [(BENCH e, OK)].
Proof. reflexivity. Qed.

Lemma commands_trailer table : commands (trailer_events table) = [(JJ_LOG, OK)].
Proof. reflexivity. Qed.

(** After the restoration: the copy, the two reports, the table and
    the trailer. *)
Lemma compare_and_describe_cases current_csv parent_csv w :
  (exists base new out desc,
      Trailer.update_trailer (rstrip_newlines out) Trailer.TRAILER_KEY (summarize base new)
      = Return desc /\
      does (_ <~ copy e current_csv (DEFAULT_CSV e) ;;
            base_results <~ read_results e parent_csv ;;
            new_results <~ read_results e current_csv ;;
            let table := CompareBenchmarks.build_table base_results new_results in
            _ <~ append_trailer e table base_results new_results ;;
            ret 0%Z)
           w (Return 0%Z)
           (Copied current_csv (DEFAULT_CSV e)
              :: trailer_events (CompareBenchmarks.build_table base new)
              ++ [Ran (jj_describe desc) OK;
                  Printed (lit "Added trailer: " ++ Trailer.TRAILER_KEY ++ lit ": "
                           ++ summarize base new)])
           (switched w)) \/
  (exists ex events,
      does (_ <~ copy e current_csv (DEFAULT_CSV e) ;;
            base_results <~ read_results e parent_csv ;;
            new_results <~ read_results e current_csv ;;
            let table := CompareBenchmarks.build_table base_results new_results in
            _ <~ append_trailer e table base_results new_results ;;
            ret 0%Z)
           w (Raise ex) events (switched w) /\
      (commands events = [] \/
       (exists status,
           succeeded status = false /\ commands events = [(JJ_LOG, status)]) \/
       (exists desc status,
           succeeded status = false /\
           commands events = [(JJ_LOG, OK); (jj_describe desc, status)]))).
Proof.
  pose proof (does_copy current_csv (DEFAULT_CSV e) w) as Hcopy.
  destruct (shutil_copy e (trace w) current_csv (DEFAULT_CSV e)) as [[]|ex].
  2:{ right. exists ex, [Copied current_csv (DEFAULT_CSV e)].
      split; [apply does_bind_raise, Hcopy|now left]. }
  set (w1 := {| trace := trace w ++ [Copied current_csv (DEFAULT_CSV e)];
                switched := switched w |}).
  destruct (does_read_results parent_csv w1) as [[base|ex] Hbase].
  2:{ right. exists ex; eexists. split.
      - eapply does_bind_return; [exact Hcopy|apply does_bind_raise, Hbase].
      - now left. }
  set (w2 := {| trace := trace w1 ++ []; switched := switched w1 |}).
  destruct (does_read_results current_csv w2) as [[new|ex] Hnew].
  2:{ right. exists ex; eexists. split.
      - eapply does_bind_return; [exact Hcopy|].
        eapply does_bind_return; [exact Hbase|apply does_bind_raise, Hnew].
      - now left. }
  set (w3 := {| trace := trace w2 ++ []; switched := switched w2 |}).
  destruct (append_trailer_cases (CompareBenchmarks.build_table base new) base new w3)
    as [(out & desc & Hdesc & H)|[(ex & status & Hst & H)|(ex & desc & status & Hst & H)]].
  - left. exists base, new, out, desc. split; [exact Hdesc|].
    cut (does (_ <~ copy e current_csv (DEFAULT_CSV e) ;;
               base_results <~ read_results e parent_csv ;;
               new_results <~ read_results e current_csv ;;
               let table := CompareBenchmarks.build_table base_results new_results in
               _ <~ append_trailer e table base_results new_results ;;
               ret 0%Z)
              w (Return 0%Z)
              ([Copied current_csv (DEFAULT_CSV e)] ++ [] ++ []
                 ++ (trailer_events (CompareBenchmarks.build_table base new)
                       ++ [Ran (jj_describe desc) OK;
                           Printed (lit "Added trailer: " ++ Trailer.TRAILER_KEY ++ lit ": "
                                    ++ summarize base new)]) ++ [])
              (switched w)).
    { cbn [app]. now rewrite app_nil_r. }
    eapply does_bind_return; [exact Hcopy|].
    eapply does_bind_return; [exact Hbase|].
    eapply does_bind_return; [exact Hnew|].
    eapply does_bind_return; [exact H|].
    unfold does, ret; cbn [trace switched]. rewrite !app_nil_r. reflexivity.
  - right. exists ex; eexists. split.
    + eapply does_bind_return; [exact Hcopy|].
      eapply does_bind_return; [exact Hbase|].
      eapply does_bind_return; [exact Hnew|apply does_bind_raise, H].
    + right; left. now exists status.
  - right. exists ex; eexists. split.
    + eapply does_bind_return; [exact Hcopy|].
      eapply does_bind_return; [exact Hbase|].
      eapply does_bind_return; [exact Hnew|apply does_bind_raise, H].
    + right; right. exists desc, status. split; [exact Hst|].
      cbn [app]. now rewrite commands_copied, commands_app, commands_trailer.
Qed.

(** A run: either nothing fails, or it raises after one of five
    sequences of commands. *)
Lemma main_body_cases tmpdir w :
  (exists base new out desc,
      Trailer.update_trailer (rstrip_newlines out) Trailer.TRAILER_KEY (summarize base new)
      = Return desc /\
      does (main_body e tmpdir) w (Return 0%Z)
           (events_before_describe e tmpdir (CompareBenchmarks.build_table base new)
              ++ [Ran (jj_describe desc) OK;
                  Printed (lit "Added trailer: " ++ Trailer.TRAILER_KEY ++ lit ": "
                           ++ summarize base new)])
           false) \/
  (exists ex events sw,
      does (main_body e tmpdir) w (Raise ex) events sw /\
      ((exists status, commands events = [(BENCH e, status)]) \/
       (exists status,
           succeeded status = false /\
           commands events = [(BENCH e, OK); (JJ_NEW, status)]) \/
       (exists status status',
           commands events
           = [(BENCH e, OK); (JJ_NEW, OK); (BENCH e, status); (JJ_UNDO, status')]) \/
       (exists status,
           succeeded status = false /\
           commands events = restored e ++ [(JJ_LOG, status)]) \/
       (exists desc status,
           succeeded status = false /\
           commands events = restored e ++ [(JJ_LOG, OK); (jj_describe desc, status)]))).
Proof.
  unfold main_body.
  destruct (run_benchmark_cases (lit "current") tmpdir w)
    as [Hcur|(ex & status & rest & Hcur & Hrest & _)].
  2:{ right. exists ex; do 2 eexists. split; [apply does_bind_raise, Hcur|].
      left. exists status. now rewrite commands_printed, commands_ran, Hrest. }
  destruct (checkout_cases tmpdir
              {| trace := trace w ++ bench_events e (lit "current") tmpdir;
                 switched := switched w |})
    as [Hpar|[(ex & status & Hst & Hpar)|(ex & status & rest & status' & sw & Hpar & Hrest)]].
  2:{ right. exists ex; do 2 eexists.
      split; [eapply does_bind_return; [exact Hcur|apply does_bind_raise, Hpar]|].
      right; left. exists status. split; [exact Hst|].
      now rewrite commands_app, commands_bench. }
  2:{ right. exists ex; do 2 eexists.
      split; [eapply does_bind_return; [exact Hcur|apply does_bind_raise, Hpar]|].
      right; right; left. exists status, status'.
      rewrite commands_app, commands_bench.
      rewrite commands_ran, commands_printed, commands_ran, commands_app, Hrest.
      reflexivity. }
  assert (Hrestored :
            commands (bench_events e (lit "current") tmpdir
                        ++ Ran JJ_NEW OK :: bench_events e (lit "parent") tmpdir
                        ++ [Printed RESTORING; Ran JJ_UNDO OK])
            = restored e) by reflexivity.
  destruct (compare_and_describe_cases
              (tmpdir ++ lit "/" ++ lit "current" ++ lit ".csv")
              (tmpdir ++ lit "/" ++ lit "parent" ++ lit ".csv")
              {| trace := (trace w ++ bench_events e (lit "current") tmpdir)
                          ++ Ran JJ_NEW OK :: bench_events e (lit "parent") tmpdir
                          ++ [Printed RESTORING; Ran JJ_UNDO OK];
                 switched := false |})
    as [(base & new & out & desc & Hdesc & H)|(ex & events & H & Hc)];
    cbn [trace switched] in H.
  - left. exists base, new, out, desc. split; [exact Hdesc|].
    unfold events_before_describe.
    replace (_ ++ [Ran (jj_describe desc) OK; _]) with
      (bench_events e (lit "current") tmpdir
         ++ (Ran JJ_NEW OK :: bench_events e (lit "parent") tmpdir
               ++ [Printed RESTORING; Ran JJ_UNDO OK])
         ++ (Copied (tmpdir ++ lit "/" ++ lit "current" ++ lit ".csv") (DEFAULT_CSV e)
               :: trailer_events (CompareBenchmarks.build_table base new)
               ++ [Ran (jj_describe desc) OK;
                   Printed (lit "Added trailer: " ++ Trailer.TRAILER_KEY ++ lit ": "
                            ++ summarize base new)])).
    + eapply does_bind_return; [exact Hcur|].
      eapply does_bind_return; [exact Hpar|exact H].
    + cbn [app]. rewrite <- !app_assoc. reflexivity.
  - right. exists ex; do 2 eexists. split.
    + eapply does_bind_return; [exact Hcur|].
      eapply does_bind_return; [exact Hpar|exact H].
    + rewrite app_assoc, commands_app, Hrestored.
      destruct Hc as [Hc|[(status & Hst & Hc)|(desc & status & Hst & Hc)]]; rewrite Hc.
      * right; right; left. exists OK, OK. reflexivity.
      * right; right; right; left. now exists status.
      * right; right; right; right. now exists desc, status.
Qed.

End RunFacts.

(** ** The commands of a whole run *)

Section RunShapes.
Import Py Dict Orchestrator.
Variable e : env.

(** The commands of a whole run: those of a run in which nothing
    fails, or one of the five sequences of a run that raises. *)
Lemma main_commands w :
  let cs := commands (new_events w (snd (main e w))) in
  (exists desc, cs = restored e ++ [(JJ_LOG, OK); (jj_describe desc, OK)]) \/
  (exists status, cs = [(BENCH e, status)]) \/
  (exists status, succeeded status = false /\ cs = [(BENCH e, OK); (JJ_NEW, status)]) \/
  (exists status status',
      cs = [(BENCH e, OK); (JJ_NEW, OK); (BENCH e, status); (JJ_UNDO, status')]) \/
  (exists status, succeeded status = false /\ cs = restored e ++ [(JJ_LOG, status)]) \/
  (exists desc status,
      succeeded status = false /\
      cs = restored e ++ [(JJ_LOG, OK); (jj_describe desc, status)]).
Proof.
  assert (Hcs : forall outcome events sw,
             does (main_body e (tmp e)) w outcome events sw ->
             commands (new_events w (snd (main e w))) = commands events).
  { intros outcome events sw H. apply does_main in H. unfold does in H.
    rewrite H; cbn [snd].
    rewrite (new_events_app w
               {| trace := trace w ++ events ++ [Removed (tmp e)]; switched := sw |}
               (events ++ [Removed (tmp e)]) eq_refl).
    rewrite commands_app. apply app_nil_r. }
  cbv zeta.
  destruct (main_body_cases e (tmp e) w)
    as [(base & new & out & desc & _ & H)|(ex & events & sw & H & Hc)];
    rewrite (Hcs _ _ _ H).
  - left. exists desc. unfold events_before_describe.
    rewrite !commands_app, !commands_bench, commands_trailer. reflexivity.
  - right. exact Hc.
Qed.


End RunShapes.

Lemma cons_split {A} (x : A) l before y after :
  x :: l = before ++ y :: after ->
  (before = [] /\ x = y /\ l = after) \/
  (exists before', before = x :: before' /\ l = before' ++ y :: after).
Proof.
  destruct before as [|b before]; cbn [app]; intros H; injection H as -> ->; eauto.
Qed.

Lemma nil_split {A} before (y : A) after : [] = before ++ y :: after -> False.
Proof. apply app_cons_not_nil. Qed.

(** Going through a known list of commands to the position that a
    decomposition [before ++ x :: after] names. *)
Ltac find_position H finish :=
  first
    [ now apply nil_split in H
    | let before' := fresh "before" in
      apply cons_split in H as [(-> & H & <-)|(before' & -> & H)];
      [ finish H | find_position H finish ] ].




(** At a position: the command there is not [jj describe], or it is the
    last one. *)
Ltac describe_command H :=
  injection H; intros; subst;
  first [ congruence
        | split; [reflexivity|split; [reflexivity|eexists; reflexivity]] ].

(** X14.  The description is written last, and only after the working
    copy was restored: before [jj describe] come the two benchmark
    runs, [jj new @-], [jj undo] and [jj log], each of which returned
    zero, and no command comes after it. *)
Theorem describe_after_restore (e : Orchestrator.env) (w : Orchestrator.world)
        (before after : list (list str * result Z)) (args : list str) (status : result Z) :
  commands (new_events w (snd (Orchestrator.main e w)))
  = before ++ (lit "jj" :: lit "describe" :: args, status) :: after ->
  before = restored e ++ [(JJ_LOG, OK)] /\
  after = [] /\
  exists desc, args = [lit "-m"; desc].
Proof.
  intros H.
  destruct (main_commands e w)
    as [(desc & Hc)|[(st & Hc)|[(st & Hst & Hc)|[(st & st' & Hc)|[(st & Hst & Hc)
       |(desc & st & Hst & Hc)]]]]];
    cbv zeta in Hc; rewrite Hc in H; unfold restored in H; cbn [app] in H;
    find_position H describe_command.
Qed.

Lemma describe_after_restore_witness :
  commands (new_events initial_world (snd (Orchestrator.main working_tools initial_world)))
  = (restored working_tools ++ [(JJ_LOG, OK)])
    ++ (lit "jj" :: lit "describe" :: [lit "-m"; described], OK) :: [] /\
  restored working_tools ++ [(JJ_LOG, OK)] = restored working_tools ++ [(JJ_LOG, OK)] /\
  @nil (list str * result Z) = [] /\
  exists desc, [lit "-m"; described] = [lit "-m"; desc].
Proof.
  assert (H : commands (new_events initial_world
                          (snd (Orchestrator.main working_tools initial_world)))
              = (restored working_tools ++ [(JJ_LOG, OK)])
                ++ (lit "jj" :: lit "describe" :: [lit "-m"; described], OK) :: [])
    by (vm_compute; reflexivity).
  split; [exact H|].
  exact (describe_after_restore working_tools initial_world _ _ _ _ H).
Defined.



(** ** The command line on reports that load, and on reports that do not *)

Section CommandLineFacts.
Import Py Dict CompareBenchmarks.
Variable e : env.

Lemma script_load_fails (argv : list str) ex :
  length argv = 3 ->
  is_file e (expanduser e (nth 1 argv [])) = true ->
  is_file e (expanduser e (nth 2 argv [])) = true ->
  load e (expanduser e (nth 1 argv [])) = Raise ex \/
  ((exists base_results, load e (expanduser e (nth 1 argv [])) = Return base_results) /\
   load e (expanduser e (nth 2 argv [])) = Raise ex) ->
  script e argv = (1%Z, []).
Proof.
  intros H Hb Hn Hload; unfold script, main.
  rewrite H, Hb, Hn; cbn [Nat.eqb negb].
  unfold bind_io, lift. fold (load e (expanduser e (nth 1 argv []))).
  fold (load e (expanduser e (nth 2 argv []))).
  destruct Hload as [->|[[base_results ->] ->]]; reflexivity.
Qed.

End CommandLineFacts.



(** X17.  When both files are there but one of the reports does not
    load (it cannot be opened, or reading it raises), the comparison
    tool prints nothing to standard output, not even a partial table,
    and ends with status 1. *)
Theorem compare_load_failure (e : CompareBenchmarks.env) (argv : list str) (ex : exn) :
  let base_path := CompareBenchmarks.expanduser e (nth 1 argv []) in
  let new_path := CompareBenchmarks.expanduser e (nth 2 argv []) in
  length argv = 3 ->
  CompareBenchmarks.is_file e base_path = true ->
  CompareBenchmarks.is_file e new_path = true ->
  load e base_path = Raise ex \/
  ((exists base_results, load e base_path = Return base_results) /\
   load e new_path = Raise ex) ->
  CompareBenchmarks.script e argv = (1%Z, []).
Proof.
  intros base_path new_path. apply script_load_fails.
Qed.

Lemma compare_load_failure_witness :
  CompareBenchmarks.script short_base
    [lit "compare_benchmarks.py"; lit "base.csv"; lit "new.csv"] = (1%Z, []) /\
  CompareBenchmarks.script short_base
    [lit "compare_benchmarks.py"; lit "new.csv"; lit "base.csv"] = (1%Z, []).
Proof.
  split.
  - apply (compare_load_failure short_base
             [lit "compare_benchmarks.py"; lit "base.csv"; lit "new.csv"] AttributeError);
      [reflexivity|reflexivity|reflexivity|left; vm_compute; reflexivity].
  - apply (compare_load_failure short_base
             [lit "compare_benchmarks.py"; lit "new.csv"; lit "base.csv"] AttributeError);
      [reflexivity|reflexivity|reflexivity|right].
    split; [eexists|]; vm_compute; reflexivity.
Defined.

(** ** Formatting and parsing again *)

Section FloatFacts.
Import Py Float.
Local Open Scope Z_scope.

(** *** The size of a mantissa *)

Lemma digits2_bounds p :
  2 ^ (Zpos (digits2_pos p) - 1) <= Zpos p < 2 ^ Zpos (digits2_pos p).
Proof.
  induction p as [p IH|p IH|]; cbn [digits2_pos].
  - rewrite Pos2Z.inj_succ, Z.pow_succ_r by lia.
    replace (Z.succ (Zpos (digits2_pos p)) - 1) with (Z.succ (Zpos (digits2_pos p) - 1)) by lia.
    rewrite Z.pow_succ_r by lia. lia.
  - rewrite Pos2Z.inj_succ, Z.pow_succ_r by lia.
    replace (Z.succ (Zpos (digits2_pos p)) - 1) with (Z.succ (Zpos (digits2_pos p) - 1)) by lia.
    rewrite Z.pow_succ_r by lia. lia.
  - cbn. lia.
Qed.

Lemma digits_lt_pow m d : 0 <= m -> 0 <= d -> (Zdigits2 m <= d <-> m < 2 ^ d).
Proof.
  intros Hm Hd. destruct m as [|p|p]; [|clear Hm|lia].
  - cbn [Zdigits2]. pose proof (Z.pow_pos_nonneg 2 d). lia.
  - cbn [Zdigits2]. pose proof (digits2_bounds p) as [Hlo Hhi]. split; intros H.
    + apply Z.lt_le_trans with (1 := Hhi). apply Z.pow_le_mono_r; lia.
    + assert (Hlt : 2 ^ (Zpos (digits2_pos p) - 1) < 2 ^ d) by lia.
      apply Z.pow_lt_mono_r_iff in Hlt; lia.
Qed.

Lemma digits_nonneg m : 0 <= Zdigits2 m.
Proof. destruct m; cbn; lia. Qed.

Lemma digits_succ m d : 0 <= m -> Zdigits2 m <= d -> Zdigits2 (m + 1) <= d + 1.
Proof.
  intros Hm Hd. pose proof (digits_nonneg m).
  assert (Hd0 : 0 <= d) by lia.
  apply digits_lt_pow; [lia|lia|].
  apply digits_lt_pow in Hd; [|lia|lia].
  rewrite Z.pow_add_r by lia. lia.
Qed.

Lemma digits_mul p q a b :
  Zdigits2 (Zpos p) <= a -> Zdigits2 (Zpos q) <= b -> Zdigits2 (Zpos (p * q)) <= a + b.
Proof.
  intros Ha Hb.
  pose proof (digits_nonneg (Zpos p)). pose proof (digits_nonneg (Zpos q)).
  assert (Ha0 : 0 <= a) by lia. assert (Hb0 : 0 <= b) by lia.
  apply digits_lt_pow in Ha; [|lia|lia]. apply digits_lt_pow in Hb; [|lia|lia].
  apply digits_lt_pow; [lia|lia|].
  rewrite Pos2Z.inj_mul, Z.pow_add_r by lia. nia.
Qed.

(** *** Shifting and rounding keep a mantissa small *)

Lemma shr_1_small mrs d :
  0 <= shr_m mrs -> Zdigits2 (shr_m mrs) <= d ->
  0 <= shr_m (shr_1 mrs) /\ Zdigits2 (shr_m (shr_1 mrs)) <= d.
Proof.
  destruct mrs as [m r s]; cbn [shr_m]; intros Hm Hd.
  destruct m as [|[p|p|]|p]; cbn [shr_1 shr_m Zdigits2 digits2_pos] in *; try lia.
Qed.

Lemma iter_shr_1_small p : forall mrs d,
  0 <= shr_m mrs -> Zdigits2 (shr_m mrs) <= d ->
  0 <= shr_m (iter_pos shr_1 p mrs) /\ Zdigits2 (shr_m (iter_pos shr_1 p mrs)) <= d.
Proof.
  induction p as [p IH|p IH|]; intros mrs d Hm Hd; cbn [iter_pos].
  - destruct (shr_1_small mrs d Hm Hd) as [H1 H2].
    destruct (IH _ d H1 H2) as [H3 H4]. now apply IH.
  - destruct (IH _ d Hm Hd) as [H3 H4]. now apply IH.
  - now apply shr_1_small.
Qed.

Lemma shr_fexp_small m e l d :
  0 <= m -> Zdigits2 m <= d ->
  0 <= shr_m (fst (shr_fexp prec emax m e l)) /\
  Zdigits2 (shr_m (fst (shr_fexp prec emax m e l))) <= d /\
  snd (shr_fexp prec emax m e l) <= Z.max e (Z.max (d + e - 53) (-1074)).
Proof.
  intros Hm Hd. unfold shr_fexp, shr.
  assert (Hrec : shr_m (shr_record_of_loc m l) = m) by (now destruct l as [|[]]).
  assert (Hfexp : fexp prec emax (Zdigits2 m + e) <= Z.max (d + e - 53) (-1074)).
  { unfold fexp, SpecFloat.emin, prec, emax. lia. }
  destruct (fexp prec emax (Zdigits2 m + e) - e) as [|n|n] eqn:En; cbn [fst snd].
  - rewrite Hrec. lia.
  - destruct (iter_shr_1_small n (shr_record_of_loc m l) d) as [H1 H2];
      rewrite ?Hrec; try assumption.
    lia.
  - rewrite Hrec. lia.
Qed.

Lemma round_nearest_even_small m l d :
  0 <= m -> Zdigits2 m <= d ->
  0 <= round_nearest_even m l /\ Zdigits2 (round_nearest_even m l) <= d + 1.
Proof.
  intros Hm Hd. pose proof (digits_succ m d Hm Hd).
  unfold round_nearest_even. destruct l as [|[]]; try destruct (Z.even m); lia.
Qed.

(** A product or quotient whose mantissa has at most [d] digits and
    whose exponent is at most [e0] rounds to a finite number when
    [e0 + 2 * d] stays below the bound. *)
Lemma binary_round_aux_finite sx mx ex lx d :
  0 <= mx -> Zdigits2 mx <= d -> 53 <= d <= 1000 -> ex + 2 * d <= 1076 ->
  finite (binary_round_aux prec emax sx mx ex lx) = true.
Proof.
  intros Hm Hd Hd53 He. unfold binary_round_aux.
  destruct (shr_fexp_small mx ex lx d Hm Hd) as (H1 & H2 & H3).
  destruct (shr_fexp prec emax mx ex lx) as [mrs' e'] eqn:E1; cbn [fst snd] in *.
  destruct (round_nearest_even_small (shr_m mrs') (loc_of_shr_record mrs') d H1 H2)
    as [H4 H5].
  destruct (shr_fexp_small (round_nearest_even (shr_m mrs') (loc_of_shr_record mrs'))
              e' loc_Exact (d + 1) H4 H5) as (H6 & H7 & H8).
  destruct (shr_fexp prec emax _ e' loc_Exact) as [mrs'' e''] eqn:E2; cbn [fst snd] in *.
  destruct (shr_m mrs'') as [|m|m]; [reflexivity| |lia].
  assert (Hle : (e'' <=? emax - prec) = true) by (apply Z.leb_le; unfold emax, prec; lia).
  now rewrite Hle.
Qed.

End FloatFacts.

Section FormattedText.
Import Py Re Float Dict CompareBenchmarks.

(** *** The digits of a formatted number *)

Lemma uint_digits u :
  forallb isdigit (list_ascii_of_string (NilEmpty.string_of_uint u)) = true.
Proof.
  induction u; cbn [NilEmpty.string_of_uint list_ascii_of_string forallb];
    [reflexivity|rewrite IHu; reflexivity ..].
Qed.

Lemma dec_digits n : forallb isdigit (dec n) = true /\ dec n <> [].
Proof.
  unfold dec, NilZero.string_of_uint.
  destruct (N.to_uint n) as [|u|u|u|u|u|u|u|u|u|u] eqn:E;
    (split; [first [reflexivity|apply uint_digits]|discriminate]).
Qed.

Lemma zeros_digits k : forallb isdigit (repeat "0"%char k) = true.
Proof. induction k; cbn [repeat forallb]; [reflexivity|now rewrite IHk]. Qed.

Lemma format_f_number p x : finite x = true -> number_text (format_f false p x).
Proof.
  intros Hx.
  assert (Hshape : exists sign int_part frac_part,
             format_f false p x = sign ++ int_part ++ frac_part /\
             In sign [[]; lit "-"; lit "+"] /\
             forallb isdigit int_part = true /\ int_part <> [] /\
             (frac_part = [] \/
              exists ds, frac_part = lit "." ++ ds /\
                         forallb isdigit ds = true /\ ds <> [])).
  { set (n := scaled p x).
    exists (if sign_bit x then lit "-" else []),
           (dec (n / Npos (pow10 p))),
           (match p with
            | O => []
            | S _ => lit "." ++ repeat "0"%char (p - length (dec (n mod Npos (pow10 p))))
                         ++ dec (n mod Npos (pow10 p))
            end).
    destruct (dec_digits (n / Npos (pow10 p))) as [Hi Hine].
    destruct (dec_digits (n mod Npos (pow10 p))) as [Hf Hfne].
    split; [destruct x; try discriminate Hx; reflexivity|].
    split; [destruct (sign_bit x); cbn; auto|].
    split; [exact Hi|split; [exact Hine|]].
    destruct p; [now left|right].
    eexists; split; [reflexivity|].
    rewrite forallb_app, zeros_digits, Hf. split; [reflexivity|].
    intros H; apply app_eq_nil in H as [_ H]; contradiction. }
  destruct Hshape as (sign & int_part & frac_part & -> & Hs & Hi & Hine & Hfrac).
  destruct Hfrac as [->|(ds & -> & Hds & Hdne)].
  - exists sign, [], [], int_part. rewrite app_nil_r. cbn [app].
    repeat split; auto. cbn; auto.
  - exists sign, int_part, (lit "."), ds. repeat split; auto. cbn; auto.
Qed.

(** *** The text of a number and a unit is clean *)

Lemma digit_plain c : isdigit c = true -> plain c = true.
Proof.
  destruct c as [[] [] [] [] [] [] [] []]; vm_compute; intros H;
    first [reflexivity|discriminate H].
Qed.

Lemma digits_plain ds : forallb isdigit ds = true -> forallb plain ds = true.
Proof.
  induction ds as [|c ds IH]; cbn [forallb]; [reflexivity|].
  intros H; apply andb_prop in H as [Hc Hds]. now rewrite (digit_plain c Hc), IH.
Qed.

Lemma number_text_plain amount :
  number_text amount -> forallb plain amount = true /\ amount <> [].
Proof.
  intros (sign & int_digits & point & frac_digits & -> & Hs & Hi & Hp & Hf & Hne).
  split.
  - rewrite !forallb_app, (digits_plain _ Hi), (digits_plain _ Hf).
    cbn [In] in Hs, Hp.
    destruct Hs as [<-|[<-|[<-|[]]]]; destruct Hp as [<-|[<-|[]]]; reflexivity.
  - intros H. apply app_eq_nil in H as [_ H]. apply app_eq_nil in H as [_ H].
    apply app_eq_nil in H as [_ H]. contradiction.
Qed.

Lemma plain_facts c :
  plain c = true ->
  isspace c = false /\ Ascii.eqb c "," = false /\ Ascii.eqb c MICRO = false.
Proof.
  unfold plain; intros H. apply andb_prop in H as [H H3]. apply andb_prop in H as [H1 H2].
  repeat split; now apply negb_true_iff.
Qed.

Lemma replace_char_absent old new x :
  forallb (fun c => negb (Ascii.eqb c old)) x = true -> replace_char old new x = x.
Proof.
  unfold replace_char. induction x as [|c x IH]; cbn [forallb flat_map]; [reflexivity|].
  intros H; apply andb_prop in H as [Hc Hx]. apply negb_true_iff in Hc.
  rewrite Hc, (IH Hx). reflexivity.
Qed.

(** A text that starts with a number and ends with a unit: stripping
    and cleaning change nothing. *)
Lemma clean_formatted amount unit :
  number_text amount ->
  In unit (duration_units ++ bytes_units) ->
  clean_duration (amount ++ lit " " ++ unit) = amount ++ lit " " ++ unit /\
  clean_bytes (amount ++ lit " " ++ unit) = amount ++ lit " " ++ unit.
Proof.
  intros Hn Hunit. destruct (number_text_plain amount Hn) as [Hplain Hne].
  assert (Hu : exists u c, unit = u ++ [c] /\ forallb plain (u ++ [c]) = true).
  { cbn [duration_units bytes_units app In] in Hunit.
    destruct Hunit as [<-|[<-|[<-|[<-|[<-|[<-|[<-|[]]]]]]]].
    - now exists (lit "n"), "s"%char.
    - now exists (lit "u"), "s"%char.
    - now exists (lit "m"), "s"%char.
    - now exists [], "s"%char.
    - now exists [], "B"%char.
    - now exists (lit "K"), "B"%char.
    - now exists (lit "M"), "B"%char. }
  destruct Hu as (u & c & -> & Hup).
  assert (Hc : isspace c = false).
  { rewrite forallb_app in Hup. apply andb_prop in Hup as [_ Hc].
    cbn [forallb] in Hc. rewrite andb_true_r in Hc. now apply plain_facts in Hc. }
  assert (Hstrip : strip (amount ++ lit " " ++ u ++ [c]) = amount ++ lit " " ++ u ++ [c]).
  { unfold strip.
    replace (amount ++ lit " " ++ u ++ [c]) with ((amount ++ lit " " ++ u) ++ [c])
      by now rewrite <- !app_assoc.
    rewrite (rstrip_fixed _ c Hc).
    destruct amount as [|a amount]; [contradiction|].
    cbn [forallb] in Hplain. apply andb_prop in Hplain as [Ha _].
    apply plain_facts in Ha as [Ha _].
    cbn [app lstrip]. now rewrite Ha. }
  assert (Hall : forall old,
             Ascii.eqb " " old = false ->
             (forall d, plain d = true -> Ascii.eqb d old = false) ->
             forallb (fun d => negb (Ascii.eqb d old)) (amount ++ lit " " ++ u ++ [c]) = true).
  { intros old Hsp Hold.
    assert (Hgen : forall y, forallb plain y = true ->
                             forallb (fun d => negb (Ascii.eqb d old)) y = true).
    { induction y as [|d y IH]; cbn [forallb]; [reflexivity|].
      intros H; apply andb_prop in H as [Hd Hy]. now rewrite (Hold d Hd), IH. }
    rewrite forallb_app, (Hgen _ Hplain).
    change (lit " " ++ u ++ [c]) with (" "%char :: u ++ [c]).
    cbn [forallb]. now rewrite Hsp, (Hgen _ Hup). }
  assert (Hcomma : replace_char "," [] (amount ++ lit " " ++ u ++ [c])
                   = amount ++ lit " " ++ u ++ [c]).
  { apply replace_char_absent, Hall; [reflexivity|].
    intros d Hd; now apply plain_facts in Hd. }
  unfold clean_duration, clean_bytes. rewrite Hstrip, Hcomma. split; [|reflexivity].
  apply replace_char_absent, Hall; [reflexivity|].
  intros d Hd; now apply plain_facts in Hd.
Qed.

Lemma parse_formatted_duration amount unit f :
  number_text amount ->
  In unit duration_units ->
  get DURATION_UNITS unit = Some f ->
  parse_duration (amount ++ lit " " ++ unit) = Return (Some (mul (of_str amount) f)).
Proof.
  intros Hn Hunit Hf.
  apply (parse_duration_match _ amount (lit " ") unit []); try assumption.
  - rewrite app_nil_r. apply clean_formatted; [exact Hn|].
    apply in_or_app; now left.
  - reflexivity.
  - cbn [duration_units In] in Hunit.
    destruct Hunit as [<-|[<-|[<-|[<-|[]]]]]; exact Hf.
Qed.

Lemma parse_formatted_bytes amount unit f :
  number_text amount ->
  In unit bytes_units ->
  get BYTES_FACTORS (lower unit) = Some f ->
  parse_bytes (amount ++ lit " " ++ unit) = Return (Some (mul (of_str amount) (of_Z f))).
Proof.
  intros Hn Hunit Hf.
  apply (parse_bytes_match _ amount (lit " ") unit []); try assumption.
  - rewrite app_nil_r. apply clean_formatted; [exact Hn|].
    apply in_or_app; now right.
  - reflexivity.
Qed.

End FormattedText.

Section FormattedNumbers.
Import Py Re Float Dict CompareBenchmarks.
Local Open Scope Z_scope.

Lemma valid_digits s m e :
  valid_binary prec emax (S754_finite s m e) = true ->
  Zdigits2 (Zpos m) <= 53 /\ e <= 971.
Proof.
  cbn [valid_binary]; unfold bounded, canonical_mantissa, fexp, SpecFloat.emin, prec, emax.
  intros H; apply andb_prop in H as [H1 H2].
  apply Z.eqb_eq in H1. apply Z.leb_le in H2. cbn [Zdigits2]. lia.
Qed.

Lemma below_exponent s m e mc ec :
  ltb (abs (S754_finite s m e)) (S754_finite false mc ec) = true -> e <= ec.
Proof.
  unfold ltb, abs, SFltb, SFabs, SFcompare.
  destruct (Z.compare_spec e ec); [lia|lia|discriminate].
Qed.

(** A number below a bound, scaled by a factor: no overflow when the
    exponents of bound and factor are small enough. *)
Lemma mul_finite_below (x : float) mc ec mK eK :
  valid_binary prec emax x = true -> finite x = true ->
  ltb (abs x) (S754_finite false mc ec) = true ->
  Zdigits2 (Zpos mK) <= 53 -> ec + eK <= 864 ->
  finite (mul x (S754_finite false mK eK)) = true.
Proof.
  destruct x as [s|s| |s m e]; try discriminate; intros Hv _ Hlt HK HE; [reflexivity|].
  destruct (valid_digits s m e Hv) as [Hm _].
  pose proof (below_exponent s m e mc ec Hlt) as He.
  unfold mul, SFmul. apply binary_round_aux_finite with (d := 106); try lia.
  now apply (digits_mul m mK 53 53).
Qed.

Lemma format_duration_cases (x : float) :
  valid_binary prec emax x = true -> finite x = true ->
  exists value unit,
    format_duration (Some x) = format_f false 3 value ++ lit " " ++ unit /\
    finite value = true /\ In unit duration_units.
Proof.
  intros Hv Hx. unfold format_duration.
  assert (Hnan : isnan x = false) by (destruct x; try discriminate Hx; reflexivity).
  rewrite Hnan.
  change (of_ratio false 1 1000000) with (S754_finite false 4722366482869645 (-72)).
  change (of_ratio false 1 1000) with (S754_finite false 4611686018427388 (-62)).
  change (of_Z 1) with (S754_finite false 4503599627370496 (-52)).
  change (of_Z 1000000000) with (S754_finite false 8388608000000000 (-23)).
  change (of_Z 1000000) with (S754_finite false 8589934592000000 (-33)).
  change (of_Z 1000) with (S754_finite false 8796093022208000 (-43)).
  destruct (ltb (abs x) (S754_finite false 4722366482869645 (-72))) eqn:E1;
    [|destruct (ltb (abs x) (S754_finite false 4611686018427388 (-62))) eqn:E2;
      [|destruct (ltb (abs x) (S754_finite false 4503599627370496 (-52))) eqn:E3]].
  - do 2 eexists; split; [reflexivity|]. split; [|cbn; auto].
    apply (mul_finite_below x _ _ _ _ Hv Hx E1); [vm_compute; discriminate|lia].
  - do 2 eexists; split; [reflexivity|]. split; [|cbn; auto].
    apply (mul_finite_below x _ _ _ _ Hv Hx E2); [vm_compute; discriminate|lia].
  - do 2 eexists; split; [reflexivity|]. split; [|cbn; auto].
    apply (mul_finite_below x _ _ _ _ Hv Hx E3); [vm_compute; discriminate|lia].
  - do 2 eexists; split; [reflexivity|]. split; [exact Hx|cbn; auto].
Qed.

Lemma duration_unit_factor unit :
  In unit duration_units -> exists f, get DURATION_UNITS unit = Some f.
Proof.
  cbn [duration_units In]. intros [<-|[<-|[<-|[<-|[]]]]]; eexists; reflexivity.
Qed.

End FormattedNumbers.

(** X18.  What [format_duration] prints for a finite number,
    [parse_duration] reads as a number again: the text is an amount
    with three decimals, a space and one of the units ns, us, ms and s,
    and it parses as that amount times the factor of that unit (for the
    binary64 numbers, which are the floats of Python). *)
Theorem format_duration_parses (x : Float.float) :
  valid_binary Float.prec Float.emax x = true ->
  finite x = true ->
  exists amount unit f,
    CompareBenchmarks.format_duration (Some x) = amount ++ lit " " ++ unit /\
    number_text amount /\
    In unit duration_units /\
    Dict.get CompareBenchmarks.DURATION_UNITS unit = Some f /\
    CompareBenchmarks.parse_duration (CompareBenchmarks.format_duration (Some x))
    = Return (Some (Float.mul (Float.of_str amount) f)).
Proof.
  intros Hv Hx.
  destruct (format_duration_cases x Hv Hx) as (value & unit & Htext & Hvalue & Hunit).
  destruct (duration_unit_factor unit Hunit) as [f Hf].
  pose proof (format_f_number 3 value Hvalue) as Hn.
  exists (Float.format_f false 3 value), unit, f.
  split; [exact Htext|]. split; [exact Hn|]. split; [exact Hunit|]. split; [exact Hf|].
  rewrite Htext. now apply parse_formatted_duration.
Qed.

Lemma format_duration_parses_witness :
  exists amount unit f,
    CompareBenchmarks.format_duration (Some (Float.of_ratio false 15 10000))
    = amount ++ lit " " ++ unit /\
    number_text amount /\
    In unit duration_units /\
    Dict.get CompareBenchmarks.DURATION_UNITS unit = Some f /\
    CompareBenchmarks.parse_duration
      (CompareBenchmarks.format_duration (Some (Float.of_ratio false 15 10000)))
    = Return (Some (Float.mul (Float.of_str amount) f)).
Proof.
  apply (format_duration_parses (Float.of_ratio false 15 10000)); reflexivity.
Defined.

Section Quotients.
Import Py Re Float Dict CompareBenchmarks.
Local Open Scope Z_scope.

Lemma small_finite (x : float) d e0 : small x d e0 -> finite x = true.
Proof. destruct x; cbn; intuition. Qed.

Lemma small_weaken (x : float) d e0 d' e0' :
  small x d e0 -> d <= d' -> e0 <= e0' -> small x d' e0'.
Proof. destruct x; cbn [small]; intuition lia. Qed.

Lemma valid_small (x : float) :
  valid_binary prec emax x = true -> finite x = true -> small x 53 971.
Proof.
  destruct x as [s|s| |s m e]; try discriminate; intros Hv _; cbn [small]; [exact I|].
  now apply (valid_digits s m e).
Qed.

(** The rounded number is small when its argument is. *)
Lemma binary_round_aux_small sx mx ex lx d :
  0 <= mx -> Zdigits2 mx <= d -> 53 <= d <= 1000 -> ex + 2 * d <= 1076 ->
  small (binary_round_aux prec emax sx mx ex lx) (d + 1)
        (Z.max (ex + 2 * d - 105) (d - 1126)).
Proof.
  intros Hm Hd Hd53 He. unfold binary_round_aux.
  destruct (shr_fexp_small mx ex lx d Hm Hd) as (H1 & H2 & H3).
  destruct (shr_fexp prec emax mx ex lx) as [mrs' e'] eqn:E1; cbn [fst snd] in *.
  destruct (round_nearest_even_small (shr_m mrs') (loc_of_shr_record mrs') d H1 H2)
    as [H4 H5].
  destruct (shr_fexp_small (round_nearest_even (shr_m mrs') (loc_of_shr_record mrs'))
              e' loc_Exact (d + 1) H4 H5) as (H6 & H7 & H8).
  destruct (shr_fexp prec emax _ e' loc_Exact) as [mrs'' e''] eqn:E2; cbn [fst snd] in *.
  destruct (shr_m mrs'') as [|m|m]; [exact I| |lia].
  assert (Hle : (e'' <=? emax - prec) = true) by (apply Z.leb_le; unfold emax, prec; lia).
  rewrite Hle. cbn [small]. lia.
Qed.

(** A quotient by a number with a full mantissa. *)
Lemma div_small (x : float) my ey d e0 :
  small x d e0 -> d <= 106 ->
  Zdigits2 (Zpos my) = 53 ->
  d + e0 - ey <= 1074 ->
  small (div x (S754_finite false my ey)) 55 (Z.max (d + e0 - ey - 103) (-1071)).
Proof.
  destruct x as [s|s| |s m e]; cbn [small]; try contradiction; intros Hx Hd Hmy Hbound;
    [exact I|].
  destruct Hx as [Hm He].
  unfold div, SFdiv, SFdiv_core_binary. rewrite Hmy.
  set (d1 := Zdigits2 (Zpos m)) in *.
  assert (Hd1 : 1 <= d1) by (unfold d1; cbn [Zdigits2]; lia).
  set (F := fexp prec emax (d1 + e - (53 + ey))).
  assert (HF : d1 + e - ey - 106 <= F <= Z.max (d1 + e - ey - 106) (-1074)).
  { unfold F, fexp, SpecFloat.emin, prec, emax. lia. }
  set (e' := Z.min F (e - ey)).
  set (s' := e - ey - e').
  assert (Hs : 0 <= s' <= 106 - d1) by (unfold s', e'; lia).
  set (m' := match s' with
             | Z0 => Zpos m
             | Zpos _ => Z.shiftl (Zpos m) s'
             | Zneg _ => 0
             end).
  assert (Hm' : 0 <= m' < 2 ^ 106).
  { assert (Hlt : Zpos m < 2 ^ d1) by (apply digits_lt_pow; unfold d1; lia).
    assert (Hpow : Zpos m * 2 ^ s' < 2 ^ 106).
    { apply Z.lt_le_trans with (2 ^ d1 * 2 ^ s').
      - apply Z.mul_lt_mono_pos_r; [apply Z.pow_pos_nonneg; lia|exact Hlt].
      - rewrite <- Z.pow_add_r by lia. apply Z.pow_le_mono_r; lia. }
    unfold m'. destruct s' as [|p|p] eqn:Es.
    - rewrite Z.pow_0_r, Z.mul_1_r in Hpow. lia.
    - rewrite Z.shiftl_mul_pow2 by lia.
      pose proof (Z.pow_pos_nonneg 2 (Zpos p)). nia.
    - lia. }
  pose proof (Z_div_mod m' (Zpos my) eq_refl) as Hdiv.
  destruct (Z.div_eucl m' (Zpos my)) as [q r].
  destruct Hdiv as [Hq Hr].
  assert (Hmy52 : 2 ^ 52 <= Zpos my).
  { pose proof (digits2_bounds my) as [Hlo _]. cbn [Zdigits2] in Hmy.
    rewrite Hmy in Hlo. exact Hlo. }
  assert (Hq0 : 0 <= q) by nia.
  assert (Hq54 : Zdigits2 q <= 54).
  { apply digits_lt_pow; [exact Hq0|lia|].
    change (2 ^ 106) with (2 ^ 52 * 2 ^ 54) in Hm'. nia. }
  assert (He' : e' + 2 * 54 <= 1076) by (unfold e'; lia).
  pose proof (binary_round_aux_small (xorb s false) q e'
                (new_location (Zpos my) r) 54 Hq0 Hq54 ltac:(lia) He') as Hsmall.
  eapply small_weaken; [exact Hsmall|lia|unfold e'; lia].
Qed.

Lemma format_bytes_cases (x : float) :
  valid_binary prec emax x = true -> finite x = true ->
  exists p value unit,
    format_bytes (Some x) = format_f false p value ++ lit " " ++ unit /\
    finite value = true /\ In unit bytes_units.
Proof.
  intros Hv Hx. unfold format_bytes.
  assert (Hnan : isnan x = false) by (destruct x; try discriminate Hx; reflexivity).
  rewrite Hnan.
  pose proof (valid_small x Hv Hx) as Hsmall.
  change (of_Z 1024) with (S754_finite false 4503599627370496 (-42)).
  assert (Hkb : small (div x (S754_finite false 4503599627370496 (-42))) 55 963).
  { eapply small_weaken; [apply (div_small x _ _ 53 971 Hsmall)|..]; try lia.
    reflexivity. }
  assert (Hmb : small (div (div x (S754_finite false 4503599627370496 (-42)))
                           (S754_finite false 4503599627370496 (-42))) 55 963).
  { eapply small_weaken; [apply (div_small _ _ _ 55 963 Hkb)|..]; try lia.
    reflexivity. }
  destruct (ltb (abs x) (S754_finite false 4503599627370496 (-42)));
    [|destruct (ltb (abs x) (of_Z (1024 * 1024)))].
  - exists 0%nat. do 2 eexists; split; [reflexivity|]. split; [exact Hx|cbn; auto].
  - exists 1%nat. do 2 eexists; split; [reflexivity|].
    split; [exact (small_finite _ _ _ Hkb)|cbn; auto].
  - exists 2%nat. do 2 eexists; split; [reflexivity|].
    split; [exact (small_finite _ _ _ Hmb)|cbn; auto].
Qed.

Lemma bytes_unit_factor unit :
  In unit bytes_units -> exists f, get BYTES_FACTORS (lower unit) = Some f.
Proof.
  cbn [bytes_units In]. intros [<-|[<-|[<-|[]]]]; eexists; reflexivity.
Qed.

End Quotients.

(** X19.  What [format_bytes] prints for a finite number,
    [parse_bytes] reads as a number again: the text is an amount, a
    space and one of the units B, KB and MB, and it parses as that
    amount times 1, 1024 or 1024 * 1024 (for the binary64 numbers). *)
Theorem format_bytes_parses (x : Float.float) :
  valid_binary Float.prec Float.emax x = true ->
  finite x = true ->
  exists amount unit f,
    CompareBenchmarks.format_bytes (Some x) = amount ++ lit " " ++ unit /\
    number_text amount /\
    In unit bytes_units /\
    Dict.get CompareBenchmarks.BYTES_FACTORS (Py.lower unit) = Some f /\
    CompareBenchmarks.parse_bytes (CompareBenchmarks.format_bytes (Some x))
    = Return (Some (Float.mul (Float.of_str amount) (Float.of_Z f))).
Proof.
  intros Hv Hx.
  destruct (format_bytes_cases x Hv Hx) as (p & value & unit & Htext & Hvalue & Hunit).
  destruct (bytes_unit_factor unit Hunit) as [f Hf].
  pose proof (format_f_number p value Hvalue) as Hn.
  exists (Float.format_f false p value), unit, f.
  split; [exact Htext|]. split; [exact Hn|]. split; [exact Hunit|]. split; [exact Hf|].
  rewrite Htext. now apply parse_formatted_bytes.
Qed.

Lemma format_bytes_parses_witness :
  exists amount unit f,
    CompareBenchmarks.format_bytes (Some (Float.of_Z 1536)) = amount ++ lit " " ++ unit /\
    number_text amount /\
    In unit bytes_units /\
    Dict.get CompareBenchmarks.BYTES_FACTORS (Py.lower unit) = Some f /\
    CompareBenchmarks.parse_bytes (CompareBenchmarks.format_bytes (Some (Float.of_Z 1536)))
    = Return (Some (Float.mul (Float.of_str amount) (Float.of_Z f))).
Proof.
  apply (format_bytes_parses (Float.of_Z 1536)); reflexivity.
Defined.

(** X20.  What the formatters print for no value, for NaN and for an
    infinite number, the parsers read as no value: ["n/a"], ["inf s"]
    and ["inf MB"] are not numbers with a unit. *)
Theorem formatted_no_value (value : option Float.float) :
  match value with
  | None => True
  | Some x => finite x = false
  end ->
  CompareBenchmarks.parse_duration (CompareBenchmarks.format_duration value) = Return None /\
  CompareBenchmarks.parse_bytes (CompareBenchmarks.format_bytes value) = Return None.
Proof.
  destruct value as [[s|[]| |s m e]|]; try discriminate; intros _;
    split; vm_compute; reflexivity.
Qed.

Lemma formatted_no_value_witness :
  CompareBenchmarks.parse_duration
    (CompareBenchmarks.format_duration (Some (S754_infinity true))) = Return None /\
  CompareBenchmarks.parse_bytes
    (CompareBenchmarks.format_bytes (Some (S754_infinity true))) = Return None.
Proof.
  apply (formatted_no_value (Some (S754_infinity true))). reflexivity.
Defined.

(** ** Reading a report: the rows that are too short *)

Section ShortRows.
Import Py Re Float Dict CompareBenchmarks.








End ShortRows.


(** ** The outcome of a command *)

(** X22.  [run] returns only for a command that returned zero.  For
    another return code it raises: the runtime error with the code, the
    command and the stripped output when the output was captured, but
    the attribute error of [None.strip] when it was not, because the
    streams are stripped before the message is built.  A command that
    cannot be started raises its own exception. *)
Theorem run_outcome (e : Orchestrator.env) (cmd : list str) (capture : bool)
        (w : Orchestrator.world) :
  match Orchestrator.subprocess_run e (Orchestrator.trace w) cmd with
  | Return o =>
      if Z.eqb (Orchestrator.out_code o) 0 then
        exists r, fst (Orchestrator.run e cmd capture w) = Return r /\
                  Orchestrator.returncode r = 0%Z
      else
        fst (Orchestrator.run e cmd capture w)
        = Raise (if capture
                 then RuntimeError (failure_message cmd (Orchestrator.out_code o)
                                      (Orchestrator.out_stdout o)
                                      (Orchestrator.out_stderr o))
                 else AttributeError)
  | Raise ex => fst (Orchestrator.run e cmd capture w) = Raise ex
  end.
Proof.
  unfold Orchestrator.run, bind_io, Orchestrator.subprocess.
  destruct (Orchestrator.subprocess_run e (Orchestrator.trace w) cmd) as [o|ex];
    [|reflexivity].
  cbn [Orchestrator.returncode].
  destruct (Orchestrator.out_code o =? 0)%Z eqn:E; cbn [negb].
  - apply Z.eqb_eq in E. eexists; split; [reflexivity|exact E].
  - destruct capture; cbn [Orchestrator.stderr Orchestrator.stdout
                           Orchestrator.strip_stream lift raise fst];
      [|reflexivity].
    reflexivity.
Qed.
